(** * synthetix-cli: the interactive contract-call driver

    A shallow embedding of [src/commands/interactive-ui.js]: the contract
    navigator ([pickContract]), the function selector ([searchAbi],
    [pickFunction]), the input coercion and the call driver, together with
    the JavaScript built-ins they rely on.

    Conventions.
    - JavaScript strings are modelled as [string]; [toLowerCase] folds the
      ASCII letters only (ABI identifiers and contract names are ASCII).
    - [undefined] is [None] for optional record fields and [VUndefined] for
      run-time values.
    - External packages (ethers, inquirer, js-levenshtein, the synthetix
      registry) are collaborators: their answers come from a [collaborators]
      record or from the scripted [answer]s of the user. *)

From Stdlib Require Import String Ascii List ZArith Lia Bool Arith.
From Stdlib Require Import Sorted Permutation.
Import ListNotations.
Local Open Scope list_scope.
Local Open Scope string_scope.

(* ===================================================================== *)
(** ** JavaScript built-ins used by the driver *)
(* ===================================================================== *)

Module JS.

(** [String.prototype.toLowerCase], on the ASCII range. *)
Definition lower_ascii (c : ascii) : ascii :=
  let n := nat_of_ascii c in
  if (65 <=? n)%nat && (n <=? 90)%nat then ascii_of_nat (n + 32) else c.

Fixpoint toLowerCase (s : string) : string :=
  match s with
  | EmptyString => EmptyString
  | String c t => String (lower_ascii c) (toLowerCase t)
  end.

(** [hay.startsWith(needle)]. *)
Fixpoint startsWith (hay needle : string) {struct needle} : bool :=
  match needle, hay with
  | EmptyString, _ => true
  | String _ _, EmptyString => false
  | String a n', String b h' => Ascii.eqb a b && startsWith h' n'
  end.

(** [hay.includes(needle)]: [needle] occurs at some offset of [hay]. *)
Fixpoint includes (hay needle : string) : bool :=
  startsWith hay needle ||
  match hay with
  | EmptyString => false
  | String _ h' => includes h' needle
  end.

(** [s.split(sep)] for a one-character separator, the only form the
    driver uses ([','] and ['(']).  The result is never empty. *)
Fixpoint split (sep : ascii) (s : string) : list string :=
  match s with
  | EmptyString => [EmptyString]
  | String c t =>
      if Ascii.eqb c sep then EmptyString :: split sep t
      else match split sep t with
           | [] => [String c EmptyString]
           | piece :: pieces => String c piece :: pieces
           end
  end.

(** No character of [s] is [sep]. *)
Fixpoint free_of (sep : ascii) (s : string) : bool :=
  match s with
  | EmptyString => true
  | String c t => negb (Ascii.eqb c sep) && free_of sep t
  end.

(** [pieces.join(sep)]. *)
Definition join (sep : string) (pieces : list string) : string :=
  String.concat sep pieces.

(** [arr.indexOf(x)]: the first index holding [x], or [-1]. *)
Fixpoint indexOf (x : string) (arr : list string) : Z :=
  match arr with
  | [] => -1
  | y :: arr' =>
      if String.eqb y x then 0
      else let i := indexOf x arr' in
           if (i <? 0)%Z then -1 else (i + 1)%Z
  end%Z.

(** [arr.splice(start, deleteCount, ...items)]: the array left behind.
    A negative [start] counts from the end and is clamped at 0; a
    [start] beyond the end is clamped to the length; the number of
    removed elements is clamped to what remains after [start]. *)
Definition splice {A} (arr : list A) (start deleteCount : Z)
           (items : list A) : list A :=
  let len := Z.of_nat (length arr) in
  let from :=
    if (start <? 0)%Z then Z.max (len + start) 0 else Z.min start len in
  let count := Z.min (Z.max deleteCount 0) (len - from) in
  (firstn (Z.to_nat from) arr ++ items
     ++ skipn (Z.to_nat (from + count)) arr)%list.

(** [arr.unshift(x)]. *)
Definition unshift {A} (x : A) (arr : list A) : list A := x :: arr.

(** [arr.sort(compare)].  The specification (ES2019) makes the sort
    stable: elements that compare equal keep their order.  It is
    modelled by insertion from the right, which places an element in
    front of the first one that [compare] puts strictly after it or
    level with it. *)
Fixpoint insert {A} (compare : A -> A -> Z) (x : A) (sorted : list A)
  : list A :=
  match sorted with
  | [] => [x]
  | y :: rest =>
      if (compare x y <=? 0)%Z then x :: y :: rest
      else y :: insert compare x rest
  end.

Fixpoint sort {A} (compare : A -> A -> Z) (arr : list A) : list A :=
  match arr with
  | [] => []
  | x :: arr' => insert compare x (sort compare arr')
  end.

(** Truthiness of an optional string property: [undefined] and [''] are
    falsy. *)
Definition truthy (s : option string) : bool :=
  match s with
  | None => false
  | Some EmptyString => false
  | Some _ => true
  end.

(** Interpolation [`${s}`] of an optional string property. *)
Definition template (s : option string) : string :=
  match s with
  | None => "undefined"
  | Some s => s
  end.

End JS.

(* ===================================================================== *)
(** ** js-levenshtein *)
(* ===================================================================== *)

(** The edit distance between two strings, computed row by row. *)
Module Levenshtein.

(** The cells of a row right of the first one.  [diag] and [left] are
    the cell above-left and the cell left of the one being filled;
    [above] holds the cells above. *)
Fixpoint fill_row (c : ascii) (b : list ascii) (above : list nat)
         (diag left : nat) : list nat :=
  match b, above with
  | d :: b', up :: above' =>
      let cost := if Ascii.eqb c d then 0 else 1 in
      let cell := Nat.min (Nat.min (up + 1) (left + 1)) (diag + cost) in
      cell :: fill_row c b' above' up cell
  | _, _ => []
  end.

Definition next_row (b : list ascii) (row : list nat) (c : ascii)
  : list nat :=
  match row with
  | [] => []
  | first :: above => S first :: fill_row c b above first (S first)
  end.

Definition distance (a b : string) : nat :=
  let b' := list_ascii_of_string b in
  let row0 := seq 0 (S (length b')) in
  last (fold_left (next_row b') (list_ascii_of_string a) row0) 0.

End Levenshtein.

Definition levenshtein (a b : string) : Z :=
  Z.of_nat (Levenshtein.distance a b).

(* ===================================================================== *)
(** ** Data model *)
(* ===================================================================== *)

(** One parameter of an ABI entry: [{ name, type }]. *)
Record param := mkParam {
  p_name : option string;
  p_type : string
}.

(** One ABI entry.  Constructors and fallbacks carry no [name]; events
    carry neither [outputs] nor [stateMutability]. *)
Record abiItem := mkAbiItem {
  item_name : option string;
  item_type : string;
  item_inputs : option (list param);
  item_outputs : option (list param);
  item_stateMutability : option string
}.

(** What [getTarget] answers: [{ address, source }]. *)
Record target := mkTarget {
  target_address : string;
  target_source : string
}.

(** What [getSource] answers: [{ abi, bytecode }]. *)
Record source := mkSource {
  abi : list abiItem;
  bytecode : string
}.

(** [new ethers.Contract(target.address, source.abi, wallet || provider)]. *)
Record contract := mkContract {
  contract_address : string;
  contract_abi : list abiItem
}.

(** The transaction overrides [{ gasPrice, gasLimit }]. *)
Record overrides := mkOverrides {
  gasPrice : Z;
  gasLimit : Z
}.

(** Errors: the JavaScript [TypeError] of a property read on [undefined],
    and the rejections reported by the chain collaborators. *)
Inductive error :=
| TypeError (message : string)
| Rejected (detail : string).

(** Run-time values held by [processed], [inputs] and [result]. *)
#[warnings="-register-all"]
Inductive value :=
| VUndefined
| VString (s : string)
| VBigNumber (n : Z)
| VBool (b : bool)
| VArray (items : list value)
| VTx (hash : string)
| VReceipt (hash : string)
| VFailure (e : error).

(** What [contract[abiItemName](...inputs, overrides)] hands to [stageTx]. *)
Record txPromise := mkTxPromise {
  tx_contract : contract;
  tx_function : string;
  tx_inputs : list value;
  tx_overrides : overrides
}.

Definition is_undefined (v : value) : bool :=
  match v with VUndefined => true | _ => false end.

(** [value[i]]. *)
Definition index (v : value) (i : nat) : value :=
  match v with
  | VArray items => nth i items VUndefined
  | VString s =>
      match String.get i s with
      | Some c => VString (String c EmptyString)
      | None => VUndefined
      end
  | _ => VUndefined
  end.

(* ===================================================================== *)
(** ** Contract navigator: the pure part *)
(* ===================================================================== *)

Definition mainContract : string := "Synthetix".

(** [prioritizeTarget(itemName)] on the array [targets]:
    [targets.splice(targets.indexOf(itemName), 1)] and then
    [targets.unshift(itemName)]. *)
Definition prioritizeTarget (itemName : string) (targets : list string)
  : list string :=
  JS.unshift itemName (JS.splice targets (JS.indexOf itemName targets) 1 []).

(** [searchTargets(matches, query = '')]. *)
Definition searchTargets (targets : list string) (query : option string)
  : list string :=
  let query := match query with Some q => q | None => EmptyString end in
  filter (fun target =>
            JS.includes (JS.toLowerCase target) (JS.toLowerCase query))
         targets.

(* ===================================================================== *)
(** ** Function selector: the pure part *)
(* ===================================================================== *)

Definition combineNameAndType (items : option (list param)) : list string :=
  match items with
  | Some items =>
      map (fun item =>
             if JS.truthy (p_name item)
             then p_type item ++ " " ++ JS.template (p_name item)
             else p_type item)
          items
  | None => []
  end.

Definition reduceSignature (item : abiItem) : string :=
  let inputs := combineNameAndType (item_inputs item) in
  let inputPart :=
    JS.template (item_name item) ++ "(" ++ JS.join ", " inputs ++ ")" in
  let outputs := combineNameAndType (item_outputs item) in
  let outputPart :=
    if (0 <? length outputs)%nat
    then " returns(" ++ JS.join ", " outputs ++ ")" else EmptyString in
  let outputPart :=
    match item_stateMutability item with
    | Some "view" => " view" ++ outputPart
    | _ => outputPart
    end in
  inputPart ++ outputPart.

Definition escItem : string := "↩ BACK".

(** The filter of [searchAbi]: named entries of type ['function'] whose
    lower-cased name includes the lower-cased query. *)
Definition abiFilter (query : string) (item : abiItem) : bool :=
  if JS.truthy (item_name item) && String.eqb (item_type item) "function"
  then JS.includes (JS.toLowerCase (JS.template (item_name item)))
                   (JS.toLowerCase query)
  else false.

(** The comparator of [searchAbi]: [aProximity - bProximity]. *)
Definition byProximity (query : string) (a b : abiItem) : Z :=
  let aProximity := levenshtein (JS.template (item_name a)) query in
  let bProximity := levenshtein (JS.template (item_name b)) query in
  (aProximity - bProximity)%Z.

(** [abiMatches] as it stands after the filter and the sort. *)
Definition abiMatches (abi : list abiItem) (query : string) : list abiItem :=
  JS.sort (byProximity query) (filter (abiFilter query) abi).

(** [searchAbi(matches, query = '')]. *)
Definition searchAbi (abi : list abiItem) (query : option string)
  : list string :=
  let query := match query with Some q => q | None => EmptyString end in
  let signatures := map reduceSignature (abiMatches abi query) in
  if String.eqb query EmptyString then JS.splice signatures 0 0 [escItem]
  else signatures.

(** [abiItemSignature.split('(')[0]]. *)
Definition abiItemNameOf (abiItemSignature : string) : string :=
  nth 0 (JS.split "(" abiItemSignature) EmptyString.

(** [source.abi.find(item => item.name === abiItemName)]. *)
Definition findAbiItem (abi : list abiItem) (abiItemName : string)
  : option abiItem :=
  find (fun item =>
          match item_name item with
          | Some n => String.eqb n abiItemName
          | None => false
          end)
       abi.

(* ===================================================================== *)
(** ** Input coercion: the pure part *)
(* ===================================================================== *)

Definition requiresBytes32Util (type : string) : bool :=
  JS.includes type "bytes32".

Definition isArray (type : string) : bool :=
  JS.includes type "[]".

(** The name under which an input is prompted: [input.name || input.type]. *)
Definition inputName (input : param) : string :=
  if JS.truthy (p_name input) then JS.template (p_name input)
  else p_type input.

(** The prompt message of an input. *)
Definition inputMessage (input : param) : string :=
  let message := inputName input in
  if requiresBytes32Util (p_type input)
  then message ++ " (uses toBytes32" ++
       (if isArray (p_type input)
        then " - if array, use a,b,c syntax" else EmptyString)
       ++ ")"
  else message.

(** The raw answer of an input prompt turned into a call argument. *)
Definition processInput (toBytes32 : string -> string) (type raw : string)
  : value :=
  if isArray type then
    let processed := JS.split "," raw in
    if requiresBytes32Util type
    then VArray (map (fun item => VString (toBytes32 item)) processed)
    else VArray (map VString processed)
  else
    if requiresBytes32Util type
    then VString (toBytes32 raw)
    else VString raw.

(** The count shown next to the processed value:
    [isArray ? processed.length : '1']. *)
Definition processedCount (type : string) (processed : value) : nat :=
  if isArray type
  then match processed with VArray items => length items | _ => 0 end
  else 1.

(* ===================================================================== *)
(** ** lodash: the keys under which inquirer files an answer *)
(* ===================================================================== *)

(** inquirer files the answer of a question with [_.set(answers, name,
    answer)].  lodash takes [name] for a plain key unless it looks like a
    path: unless it holds a dot, or an opening bracket that is closed
    again, either after characters that are no brackets or after a quoted
    text.  A name that looks like a path is split, the answer goes to a
    nested property, and [answers[name]] stays [undefined]. *)
Module Lodash.

Definition doubleQuote : ascii := ascii_of_nat 34.

Definition isQuote (c : ascii) : bool :=
  Ascii.eqb c doubleQuote || Ascii.eqb c "'".

Definition lineTerminator (c : ascii) : bool :=
  Ascii.eqb c (ascii_of_nat 10) || Ascii.eqb c (ascii_of_nat 13).

(** After an opening bracket: characters other than brackets, then the
    closing bracket. *)
Fixpoint closesPlain (s : string) : bool :=
  match s with
  | EmptyString => false
  | String c t =>
      if Ascii.eqb c "]" then true
      else if Ascii.eqb c "[" then false
      else closesPlain t
  end.

(** After an opening bracket and the quote [q]: the text up to the next
    [q] that no backslash escapes, which the closing bracket must
    follow. *)
Fixpoint closesQuoted (q : ascii) (s : string) : bool :=
  match s with
  | EmptyString => false
  | String c t =>
      if Ascii.eqb c "\" then
        match t with
        | String d t' =>
            if lineTerminator d then false else closesQuoted q t'
        | EmptyString => false
        end
      else if Ascii.eqb c q then JS.startsWith t "]"
      else closesQuoted q t
  end.

(** [reIsDeepProp.test(name)]. *)
Fixpoint isDeepProp (name : string) : bool :=
  match name with
  | EmptyString => false
  | String c t =>
      Ascii.eqb c "."
      || (Ascii.eqb c "["
          && (closesPlain t
              || match t with
                 | String q t' => isQuote q && closesQuoted q t'
                 | EmptyString => false
                 end))
      || isDeepProp t
  end.

(** [isKey(name, answers)] for a text [name]. *)
Definition isKey (name : string) : bool := negb (isDeepProp name).

End Lodash.

(** [answers[name]] once the text [typed] has been filed under [name]. *)
Definition readAnswer (name typed : string) : option string :=
  if Lodash.isKey name then Some typed else None.

(* ===================================================================== *)
(** ** Effects: prompts, collaborators and the console *)
(* ===================================================================== *)

(** How a promise settles. *)
Inductive settled (A : Type) :=
| Fulfilled (a : A)
| RejectedWith (e : error).
Arguments Fulfilled {A} a.
Arguments RejectedWith {A} e.

(** The external packages, as far as the driver observes them. *)
Record collaborators := mkCollaborators {
  (** [synthetix.toBytes32] *)
  toBytes32 : string -> string;
  (** [getTarget({ contract, ... })]: [undefined] for an unknown name *)
  getTarget : string -> option target;
  (** [getSource({ contract, ... })] *)
  getSource : string -> option source;
  (** [provider.getCode(address)] *)
  getCode : string -> string;
  (** [contract[name](...inputs)] on a view function *)
  call : contract -> string -> list value -> settled value;
  (** the staging of a transaction: the transaction, or the error *)
  stage : txPromise -> settled string;
  (** the broadcast of a staged transaction: the error, if any *)
  submit : string -> option error;
  (** the wait for the receipt of a broadcast transaction *)
  receipt : string -> settled string;
  (** [`${value}`] and [value.toString()] *)
  toString : value -> string;
  (** [ethers.utils.formatEther] *)
  formatEther : Z -> string;
  (** [synthetix.toBytes32(undefined)]: the word it answers, or the error
      it throws *)
  toBytes32Missing : settled string;
  (** [contract[name](...inputs, overrides)]: the error thrown on the
      spot, if any (the binding has no method of that name); otherwise
      the call hands back its promise *)
  transact : txPromise -> option error
}.

(** The options of a session that the driver reads. *)
Record context := mkContext {
  (** [Object.keys(deploymentData.targets)] *)
  deploymentTargets : list string;
  (** [{ gasPrice: parseUnits(`${gasPrice}`, 'gwei'), gasLimit }] *)
  txOverrides : overrides
}.

(** What the user does at a prompt: at a list-search prompt, type [query]
    (or nothing) and pick the entry at [position]; at an input prompt, type
    a text; at a confirm prompt, say yes or no. *)
Inductive answer :=
| Choose (query : option string) (position : nat)
| Typed (text : string)
| YesNo (yes : bool).

(** What the driver does to the outside, in the order it does it.
    [Query] is the call [contract[name](...inputs)] of the view branch,
    [Send] the call [contract[name](...inputs, overrides)] of the other
    branch: the same method of the binding, which decides by itself
    whether it reads or signs. *)
Inductive event :=
| Log (line : string)
| LogRawInputs (raw : string)
| LogRawUndefined
| LogProcessedInputs (count : nat) (processed : value)
| PromptContract
| PromptFunction
| PromptInput (message name : string)
| PromptConfirm
| UiClose
| Query (c : contract) (fn : string) (inputs : list value)
| Send (p : txPromise)
| StageTx (p : txPromise)
| SubmitTx (tx : string)
| AwaitReceipt (tx : string)
| LogError (e : error)
| LogReceipt (result : value) (c : contract)
| PrintOutput (name : option string) (type : string) (shown : value)
| ConsoleError (e : error)
| ConsoleStack (e : error).

(** The outside world: the answers still to come and the events so far,
    the most recent first. *)
Record world := mkWorld {
  script : list answer;
  trace : list event
}.

(** The events of a world in the order they happened. *)
Definition history (w : world) : list event := rev (trace w).

(** How an asynchronous function ends: it returns, it throws, it stays
    suspended at a prompt that nobody answers ([Pending]), or the depth
    allowed to the nest of calls is used up ([Unwound]). *)
Inductive outcome (A : Type) :=
| Returned (a : A)
| Threw (e : error)
| Pending
| Unwound.
Arguments Returned {A} a.
Arguments Threw {A} e.
Arguments Pending {A}.
Arguments Unwound {A}.

Definition M (A : Type) : Type := world -> outcome A * world.

Definition ret {A} (a : A) : M A := fun w => (Returned a, w).

Definition bind {A B} (m : M A) (k : A -> M B) : M B :=
  fun w =>
    match m w with
    | (Returned a, w') => k a w'
    | (Threw e, w') => (Threw e, w')
    | (Pending, w') => (Pending, w')
    | (Unwound, w') => (Unwound, w')
    end.

Notation "x <- m ;; k" := (bind m (fun x => k))
  (at level 61, m at next level, right associativity).
Notation "m ;; k" := (bind m (fun _ => k))
  (at level 61, right associativity).

Definition throw {A} (e : error) : M A := fun w => (Threw e, w).

Definition unwound {A} : M A := fun w => (Unwound, w).

Definition emit (e : event) : M unit :=
  fun w => (Returned tt, mkWorld (script w) (e :: trace w)).

(** [inquirer.prompt] with an [autocomplete] question whose [source] is
    [candidates]. *)
Definition promptList (shown : event)
           (candidates : option string -> list string) : M string :=
  fun w =>
    let w' := mkWorld (script w) (shown :: trace w) in
    match script w with
    | Choose query position :: later =>
        match nth_error (candidates query) position with
        | Some choice => (Returned choice, mkWorld later (trace w'))
        | None => (Pending, w')
        end
    | _ => (Pending, w')
    end.

(** [inquirer.prompt] with an [input] question named [name], and the
    reading [answer[name]] of what it resolves to. *)
Definition promptInput (message name : string) : M (option string) :=
  fun w =>
    let w' := mkWorld (script w) (PromptInput message name :: trace w) in
    match script w with
    | Typed text :: later =>
        (Returned (readAnswer name text), mkWorld later (trace w'))
    | _ => (Pending, w')
    end.

(** An awaited value: the value, or the error thrown. *)
Definition settle {A} (s : settled A) : M A :=
  match s with
  | Fulfilled a => ret a
  | RejectedWith e => throw e
  end.

(** [inquirer.prompt] with a [confirm] question. *)
Definition promptConfirm : M bool :=
  fun w =>
    let w' := mkWorld (script w) (PromptConfirm :: trace w) in
    match script w with
    | YesNo yes :: later => (Returned yes, mkWorld later (trace w'))
    | _ => (Pending, w')
    end.

(** Modelled from the spec: [stageTx] of [src/utils/runTx.js], whose body
    is not among the sources.  It stages the transaction without
    broadcasting it and answers [{ success, tx | error }]. *)
Definition stageTx (env : collaborators) (p : txPromise)
  : M (settled string) :=
  emit (StageTx p) ;;
  ret (stage env p).

(** Modelled from the spec: [runTx] of [src/utils/runTx.js], whose body is
    not among the sources.  It submits the staged transaction, then awaits
    its receipt; either phase can fail, and a failed submission ends the
    run.  It answers [{ success, receipt | error }]. *)
Definition runTx (env : collaborators) (tx : string) : M (settled string) :=
  emit (SubmitTx tx) ;;
  match submit env tx with
  | Some e => ret (RejectedWith e)
  | None =>
      emit (AwaitReceipt tx) ;;
      ret (receipt env tx)
  end.

(* ===================================================================== *)
(** ** The driver *)
(* ===================================================================== *)

Definition isView (abiItem : abiItem) : bool :=
  match item_stateMutability abiItem with
  | Some m => String.eqb m "view"
  | None => false
  end.

(** The line ['  > raw inputs:'] for what was read from the answers. *)
Definition logRaw (processed : option string) : event :=
  match processed with
  | Some raw => LogRawInputs raw
  | None => LogRawUndefined
  end.

(** Lines 304 to 314 on what was read from the answers.  A text is
    coerced by [processInput]; on [undefined] the split throws, and
    [toBytes32] is called on [undefined]. *)
Definition coerceAnswer (env : collaborators) (type : string)
           (processed : option string) : settled value :=
  match processed with
  | Some raw => Fulfilled (processInput (toBytes32 env) type raw)
  | None =>
      if isArray type
      then RejectedWith
             (TypeError "Cannot read property 'split' of undefined")
      else if requiresBytes32Util type
      then match toBytes32Missing env with
           | Fulfilled word => Fulfilled (VString word)
           | RejectedWith e => RejectedWith e
           end
      else Fulfilled VUndefined
  end.

(** The loop over [abiItem.inputs]: prompt, coerce, collect. *)
Fixpoint promptInputs (env : collaborators) (params : list param)
  : M (list value) :=
  match params with
  | [] => ret []
  | input :: params' =>
      answer <- promptInput (inputMessage input) (inputName input) ;;
      emit (logRaw answer) ;;
      processed <- settle (coerceAnswer env (p_type input) answer) ;;
      emit (LogProcessedInputs (processedCount (p_type input) processed)
                               processed) ;;
      inputs <- promptInputs env params' ;;
      ret (processed :: inputs)
  end.

(** The view branch: [try { result = await contract[abiItemName](...inputs) }
    catch (err) { error = err }]. *)
Definition queryContract (env : collaborators) (c : contract)
           (abiItemName : string) (inputs : list value)
  : M (value * option error) :=
  emit (Log "  > Querying...") ;;
  emit (Query c abiItemName inputs) ;;
  match call env c abiItemName inputs with
  | Fulfilled result => ret (result, None)
  | RejectedWith err => ret (VUndefined, Some err)
  end.

(** [contract[abiItemName](...inputs, overrides)], outside any
    [try]: a method that the binding does not have throws here. *)
Definition callMethod (env : collaborators) (p : txPromise) : M txPromise :=
  emit (Send p) ;;
  match transact env p with
  | Some e => throw e
  | None => ret p
  end.

(** The mutating branch after the confirmation: call the method, stage
    what it hands back, then run. *)
Definition sendTransaction (env : collaborators) (ctx : context)
           (c : contract) (abiItemName : string) (inputs : list value)
  : M (value * option error) :=
  emit (Log "  > Staging transaction...") ;;
  txPromise <- callMethod env (mkTxPromise c abiItemName inputs
                                           (txOverrides ctx)) ;;
  result <- stageTx env txPromise ;;
  match result with
  | Fulfilled tx =>
      emit (Log ("  > Sending transaction... " ++ tx)) ;;
      result <- runTx env tx ;;
      match result with
      | Fulfilled receipt => ret (VReceipt receipt, None)
      | RejectedWith e => ret (VFailure e, Some e)
      end
  | RejectedWith e => ret (VFailure e, Some e)
  end.

Definition printReturnedValue (env : collaborators) (v : value) : value :=
  match v with
  | VBigNumber n =>
      VString (toString env v ++ " (" ++ formatEther env n ++ ")")
  | VArray items => VArray (map (fun item => VString (toString env item)) items)
  | _ => v
  end.

(** [for (let i = 0; i < abiItem.outputs.length; i++)], from index [i] on. *)
Fixpoint printEachOutput (env : collaborators) (outputs : list param)
         (result : value) (i : nat) : M unit :=
  match outputs with
  | [] => ret tt
  | output :: outputs' =>
      emit (PrintOutput (p_name output) (p_type output)
                        (printReturnedValue env (index result i))) ;;
      printEachOutput env outputs' result (S i)
  end.

(** The printing of the value of a view call. *)
Definition printOutputs (env : collaborators) (abiItem : abiItem)
           (result : value) : M unit :=
  match item_outputs abiItem with
  | None => throw (TypeError "Cannot read property 'length' of undefined")
  | Some outputs =>
      if (1 <? length outputs)%nat
      then printEachOutput env outputs result 0
      else
        match nth_error outputs 0 with
        | None => throw (TypeError "Cannot read property 'name' of undefined")
        | Some output =>
            emit (PrintOutput (p_name output) (p_type output)
                              (printReturnedValue env result))
        end
  end.

(** [if (error) logError(error) else { logReceipt(result, contract); ... }]. *)
Definition report (env : collaborators) (c : contract) (abiItem : abiItem)
           (result : value) (error : option error) : M unit :=
  match error with
  | Some e => emit (LogError e)
  | None =>
      emit (LogReceipt result c) ;;
      if isView abiItem && negb (is_undefined result)
      then printOutputs env abiItem result
      else ret tt
  end.

(** From the line ['Transaction sent...'] to the closing call of
    [pickFunction]. *)
Definition conclude (env : collaborators) (pickFunction : M unit)
           (c : contract) (abiItem : abiItem)
           (result : value) (error : option error) : M unit :=
  emit (Log "  > Transaction sent...") ;;
  report env c abiItem result error ;;
  pickFunction.

(** The call section of [pickFunction], for the entry [abiItem]. *)
Definition callFunction (env : collaborators) (ctx : context)
           (pickFunction : M unit) (c : contract)
           (abiItemName : string) (abiItem : abiItem) (inputs : list value)
  : M unit :=
  if isView abiItem then
    r <- queryContract env c abiItemName inputs ;;
    conclude env pickFunction c abiItem (fst r) (snd r)
  else
    confirmation <- promptConfirm ;;
    if negb confirmation then
      pickFunction
    else
      r <- sendTransaction env ctx c abiItemName inputs ;;
      conclude env pickFunction c abiItem (fst r) (snd r).

(** The body of [pickFunction]; [pickContract] and [pickFunction] stand
    for the two recursive calls. *)
Definition pickFunction_body (env : collaborators) (ctx : context)
           (pickContract pickFunction : M unit)
           (c : contract) (src : source) : M unit :=
  abiItemSignature <- promptList PromptFunction (searchAbi (abi src)) ;;
  (if String.eqb abiItemSignature escItem
   then emit UiClose ;; pickContract
   else ret tt) ;;
  let abiItemName := abiItemNameOf abiItemSignature in
  match findAbiItem (abi src) abiItemName with
  | None => throw (TypeError "Cannot read property 'inputs' of undefined")
  | Some abiItem =>
      match item_inputs abiItem with
      | None => throw (TypeError "Cannot read property 'length' of undefined")
      | Some params =>
          inputs <- promptInputs env params ;;
          callFunction env ctx pickFunction c abiItemName abiItem inputs
      end
  end.

(** The body of [pickContract]; [pickFunction] stands for the first
    function pick on the resolved contract. *)
Definition pickContract_body (env : collaborators) (ctx : context)
           (pickFunction : contract -> source -> M unit) : M unit :=
  let targets := prioritizeTarget mainContract (deploymentTargets ctx) in
  contractName <- promptList PromptContract (searchTargets targets) ;;
  match getTarget env contractName with
  | None => throw (TypeError "Cannot read property 'source' of undefined")
  | Some target =>
      let resolved := getSource env (target_source target) in
      emit (Log ("  > " ++ contractName ++ " => " ++ target_address target)) ;;
      match resolved with
      | None => throw (TypeError "Cannot read property 'abi' of undefined")
      | Some src =>
          let c := mkContract (target_address target) (abi src) in
          (if String.eqb (bytecode src) EmptyString
           then emit (Log ("  > No code at " ++ target_address target
                             ++ ", code: "
                             ++ getCode env (target_address target)))
           else ret tt) ;;
          pickFunction c src
      end
  end.

(** [pickContract] and the [pickFunction] nested in it.  Neither returns
    unless something throws: every path ends in one of the two calls.
    [fuel] bounds the depth of the nest of calls. *)
Fixpoint pickContract (env : collaborators) (ctx : context) (fuel : nat)
  : M unit :=
  match fuel with
  | O => unwound
  | S fuel' =>
      pickContract_body env ctx (fun c src => pickFunction env ctx fuel' c src)
  end
with pickFunction (env : collaborators) (ctx : context) (fuel : nat)
                  (c : contract) (src : source) : M unit :=
  match fuel with
  | O => unwound
  | S fuel' =>
      pickFunction_body env ctx (pickContract env ctx fuel')
                        (pickFunction env ctx fuel' c src) c src
  end.

(** [interactiveUi], from the first contract pick on.  The set-up of the
    provider and the banner come before it and take no part in the loop. *)
Definition interactiveUi (env : collaborators) (ctx : context) (fuel : nat)
  : M unit :=
  pickContract env ctx fuel.

(** The [action] of the program: [process.exitCode] is set to 1 when, and
    only when, [interactiveUi] throws. *)
Definition action (env : collaborators) (ctx : context) (fuel : nat)
           (w : world) : outcome unit * Z * world :=
  match interactiveUi env ctx fuel w with
  | (Threw err, w') =>
      (Returned tt, 1%Z,
       mkWorld (script w') (ConsoleStack err :: ConsoleError err :: trace w'))
  | (o, w') => (o, 0%Z, w')
  end.

(* ===================================================================== *)
(** ** Vocabulary of the properties *)
(* ===================================================================== *)

(** The comparator of a sort by key, and the order it aims at. *)
Definition comparing {A} (key : A -> Z) (a b : A) : Z := (key a - key b)%Z.

Definition ascending {A} (key : A -> Z) (a b : A) : Prop :=
  (key a <= key b)%Z.

(** The edit distance between the query and the name of an ABI entry. *)
Definition proximity (query : string) (item : abiItem) : Z :=
  levenshtein (JS.template (item_name item)) query.

(** [name] contains [query] as a substring, letter case set aside. *)
Definition containsIgnoringCase (name query : string) : Prop :=
  exists pre post,
    JS.toLowerCase name = pre ++ JS.toLowerCase query ++ post.

(** The call argument that the text typed at the prompt of [input] leads
    to, or the error thrown on the way. *)
Definition argument (env : collaborators) (input : param) (typed : string)
  : settled value :=
  coerceAnswer env (p_type input) (readAnswer (inputName input) typed).

(** Every text of [raws] leads to an argument for its parameter. *)
Fixpoint inputsPass (env : collaborators) (params : list param)
         (raws : list string) : Prop :=
  match params, raws with
  | input :: params', raw :: raws' =>
      (exists processed, argument env input raw = Fulfilled processed)
      /\ inputsPass env params' raws'
  | _, _ => True
  end.

(** The call arguments built from the raw answers, one per parameter, up
    to the first one that throws. *)
Fixpoint coerceInputs (env : collaborators) (params : list param)
         (raws : list string) : list value :=
  match params, raws with
  | input :: params', raw :: raws' =>
      match argument env input raw with
      | Fulfilled processed => processed :: coerceInputs env params' raws'
      | RejectedWith _ => []
      end
  | _, _ => []
  end.

(** The events of the input prompts, in the order they happen, up to the
    first input that throws. *)
Fixpoint inputEvents (env : collaborators) (params : list param)
         (raws : list string) : list event :=
  match params, raws with
  | input :: params', raw :: raws' =>
      PromptInput (inputMessage input) (inputName input)
      :: logRaw (readAnswer (inputName input) raw)
      :: match argument env input raw with
         | Fulfilled processed =>
             LogProcessedInputs (processedCount (p_type input) processed)
                                processed
             :: inputEvents env params' raws'
         | RejectedWith _ => []
         end
  | _, _ => []
  end.

(** In the world [w] the user picks, at the function prompt, the signature
    [abiItemSignature] (not the back entry), which leads to the entry
    [abiItem] with the parameters [params]; the user then types [raws],
    one text per parameter, each of which leads to an argument; [later]
    is what the user does after that. *)
Record selects (env : collaborators) (src : source) (w : world)
       (abiItemSignature : string)
       (abiItem : abiItem) (params : list param) (raws : list string)
       (later : list answer) : Prop := {
  sel_script :
    exists query position,
      script w = (Choose query position :: map Typed raws ++ later)%list
      /\ nth_error (searchAbi (abi src) query) position
         = Some abiItemSignature;
  sel_not_back : abiItemSignature <> escItem;
  sel_entry :
    findAbiItem (abi src) (abiItemNameOf abiItemSignature) = Some abiItem;
  sel_params : item_inputs abiItem = Some params;
  sel_raws : length raws = length params;
  sel_pass : inputsPass env params raws
}.

(** The world once the function is picked and its inputs are typed. *)
Definition afterInputs (env : collaborators) (w : world)
           (params : list param) (raws : list string) (later : list answer)
  : world :=
  mkWorld later
          (rev (inputEvents env params raws) ++ PromptFunction :: trace w)%list.

(** The events of a confirmed transaction whose method hands back its
    promise, from the staging line on. *)
Definition transactionEvents (env : collaborators) (c : contract)
           (p : txPromise) : list event :=
  Log "  > Staging transaction..." :: Send p :: StageTx p ::
  match stage env p with
  | RejectedWith stageError =>
      [Log "  > Transaction sent..."; LogError stageError]
  | Fulfilled tx =>
      Log ("  > Sending transaction... " ++ tx) :: SubmitTx tx ::
      match submit env tx with
      | Some submitError =>
          [Log "  > Transaction sent..."; LogError submitError]
      | None =>
          AwaitReceipt tx ::
          match receipt env tx with
          | RejectedWith receiptError =>
              [Log "  > Transaction sent..."; LogError receiptError]
          | Fulfilled mined =>
              [Log "  > Transaction sent..."; LogReceipt (VReceipt mined) c]
          end
      end
  end.

(** The lines printed for the outputs of a view call, from index [i] on
    when there are several. *)
Fixpoint eachOutputEvents (env : collaborators) (outputs : list param)
         (result : value) (i : nat) : list event :=
  match outputs with
  | [] => []
  | output :: outputs' =>
      PrintOutput (p_name output) (p_type output)
                  (printReturnedValue env (index result i))
      :: eachOutputEvents env outputs' result (S i)
  end.

Definition printedEvents (env : collaborators) (outputs : list param)
           (result : value) : list event :=
  match outputs with
  | [] => []
  | [output] =>
      [PrintOutput (p_name output) (p_type output)
                   (printReturnedValue env result)]
  | _ => eachOutputEvents env outputs result 0
  end.

(** The events of a view call that returns [result]. *)
Definition queryEvents (env : collaborators) (c : contract) (fn : string)
           (inputs : list value) (result : value) (outputs : list param)
  : list event :=
  ([Log "  > Querying..."; Query c fn inputs; Log "  > Transaction sent...";
    LogReceipt result c]
     ++ (if is_undefined result then [] else printedEvents env outputs result)
  )%list.

(** The events by which a transaction leaves the driver: the call of the
    contract method and the three phases of a mutating call. *)
Definition isPhase (e : event) : bool :=
  match e with
  | Send _ | StageTx _ | SubmitTx _ | AwaitReceipt _ => true
  | _ => false
  end.

(** The events by which an outcome is reported. *)
Definition isReport (e : event) : bool :=
  match e with
  | LogError _ | LogReceipt _ _ => true
  | _ => false
  end.

(** An asynchronous function that has not returned: it waits at a prompt,
    or it has thrown. *)
Definition open_ended {A} (o : outcome A) : Prop :=
  o = Pending \/ exists e, o = Threw e.

(** [m] never uses up the recursion budget, and never hands back more
    answers than it was given. *)
Definition steady {A} (m : M A) : Prop :=
  forall w,
    match m w with
    | (Returned _, w') => length (script w') <= length (script w)
    | (o, _) => open_ended o
    end.

(** [m] does not return, whatever the user does with at most [k] answers. *)
Definition open_within {A} (k : nat) (m : M A) : Prop :=
  forall w, length (script w) <= k -> open_ended (fst (m w)).

(* ===================================================================== *)
(** ** A sample deployment, for running the model *)
(* ===================================================================== *)

Module Sample.

Definition hexDigit (n : nat) : ascii :=
  nth n (list_ascii_of_string "0123456789abcdef") "0"%char.

Fixpoint asciiToHex (s : string) : string :=
  match s with
  | EmptyString => EmptyString
  | String c t =>
      let n := nat_of_ascii c in
      String (hexDigit (n / 16)) (String (hexDigit (n mod 16)) (asciiToHex t))
  end.

Fixpoint zeros (n : nat) : string :=
  match n with
  | O => EmptyString
  | S n' => String "0" (zeros n')
  end.

(** The registry's [toBytes32]: the hexadecimal form of the text, padded
    with zeros on the right to 32 bytes. *)
Definition bytes32OfText (key : string) : string :=
  let digits := asciiToHex key in
  "0x" ++ digits ++ zeros (64 - String.length digits).

Definition named (n t : string) : param := mkParam (Some n) t.
Definition unnamed (t : string) : param := mkParam (Some EmptyString) t.

Definition ctor : abiItem :=
  mkAbiItem None "constructor" (Some [named "_owner" "address"]) None
            (Some "nonpayable").
Definition Burned : abiItem :=
  mkAbiItem (Some "Burned") "event"
            (Some [named "account" "address"; named "value" "uint256"])
            None None.
Definition transfer : abiItem :=
  mkAbiItem (Some "transfer") "function"
            (Some [named "to" "address"; named "value" "uint256"])
            (Some [unnamed "bool"]) (Some "nonpayable").
Definition balanceOf : abiItem :=
  mkAbiItem (Some "balanceOf") "function"
            (Some [named "account" "address"])
            (Some [unnamed "uint256"]) (Some "view").
Definition burn : abiItem :=
  mkAbiItem (Some "burn") "function"
            (Some [named "amount" "uint256"]) (Some []) (Some "nonpayable").
Definition burnFor : abiItem :=
  mkAbiItem (Some "burn") "function"
            (Some [named "from" "address"; named "amount" "uint256"])
            (Some []) (Some "nonpayable").
Definition rateAndTime : abiItem :=
  mkAbiItem (Some "rateAndTime") "function"
            (Some [named "currencyKey" "bytes32"])
            (Some [named "rate" "uint256"; named "time" "uint256"])
            (Some "view").
Definition ping : abiItem :=
  mkAbiItem (Some "ping") "function" (Some []) (Some []) (Some "view").
Definition setKeys : abiItem :=
  mkAbiItem (Some "setKeys") "function"
            (Some [named "keys" "bytes32[]"]) (Some []) (Some "nonpayable").

Definition sampleAbi : list abiItem :=
  [ctor; Burned; transfer; balanceOf; burn; burnFor; rateAndTime; ping;
   setKeys].

Definition sampleSource : source := mkSource sampleAbi "0x6080".
Definition sampleContract : contract := mkContract "0xC011" sampleAbi.

(** A chain whose registry knows the contracts [names].  Reads succeed
    on [ping], [balanceOf] and [rateAndTime]; the binding has a method
    for a name that one function of the ABI bears, and none for a name
    that several share, as ethers has it; [toBytes32] answers the zero
    word on [undefined]; the staging succeeds except for [transfer];
    [broadcast] and [mined] tell how the submission and the wait for the
    receipt end. *)
Definition chain (names : list string) (broadcast : option error)
           (mined : settled string) : collaborators :=
  mkCollaborators
    bytes32OfText
    (fun name =>
       if existsb (String.eqb name) names
       then Some (mkTarget "0xC011" name) else None)
    (fun name =>
       if existsb (String.eqb name) names
       then Some sampleSource else None)
    (fun _ => "0x")
    (fun _ fn _ =>
       if String.eqb fn "ping" then Fulfilled (VArray [])
       else if String.eqb fn "balanceOf" then Fulfilled (VBigNumber 7)
       else if String.eqb fn "rateAndTime"
       then Fulfilled (VArray [VBigNumber 7; VBigNumber 1600000000])
       else RejectedWith (Rejected "call revert exception"))
    (fun p =>
       if String.eqb (tx_function p) "transfer"
       then RejectedWith (Rejected "cannot estimate gas")
       else Fulfilled "0xbeef")
    (fun _ => broadcast)
    (fun _ => mined)
    (fun v => match v with
              | VString s => s
              | VBigNumber 7 => "7"
              | VBigNumber _ => "1600000000"
              | _ => "[object]"
              end)
    (fun _ => "0.000000000000000007")
    (Fulfilled ("0x" ++ zeros 64))
    (fun p =>
       if (length (filter (fun item =>
                             String.eqb (item_type item) "function"
                             && String.eqb (JS.template (item_name item))
                                           (tx_function p))
                          (contract_abi (tx_contract p))) =? 1)%nat
       then None
       else Some (TypeError "contract[abiItemName] is not a function")).

Definition deployed : list string := ["FeePool"; "Synthetix"; "SynthsUSD"].

(** The broadcast is refused. *)
Definition env : collaborators :=
  chain deployed (Some (Rejected "nonce too low")) (Fulfilled "0xbeef").

(** The broadcast goes through and the receipt reports a revert. *)
Definition envReverting : collaborators :=
  chain deployed None (RejectedWith (Rejected "transaction failed")).

(** The transaction is mined. *)
Definition envMining : collaborators :=
  chain deployed None (Fulfilled "0xbeef").

Definition ctx : context :=
  mkContext deployed (mkOverrides 1000000000 8000000).

(** A deployment that does not list the main contract. *)
Definition deployedWithoutMain : list string := ["FeePool"; "SynthsUSD"].

Definition envWithoutMain : collaborators :=
  chain deployedWithoutMain None (Fulfilled "0xbeef").

Definition ctxWithoutMain : context :=
  mkContext deployedWithoutMain (mkOverrides 1000000000 8000000).

Definition begin (answers : list answer) : world := mkWorld answers [].

End Sample.

(* ===================================================================== *)
(** ** More built-ins: text replacement and slicing *)
(* ===================================================================== *)

(** The first [n] characters of a text, [s.slice(0, n)]. *)
Fixpoint takeText (n : nat) (s : string) : string :=
  match n, s with
  | S n', String c s' => String c (takeText n' s')
  | _, _ => EmptyString
  end.

(** The text after its first [n] characters, [s.slice(n)]. *)
Fixpoint dropText (n : nat) (s : string) : string :=
  match n, s with
  | S n', String _ s' => dropText n' s'
  | _, _ => s
  end.

(** [s.indexOf(pattern)] on texts: the first offset at which [pattern]
    occurs, if any. *)
Fixpoint indexOfText (s pattern : string) : option nat :=
  if JS.startsWith s pattern then Some 0
  else match s with
       | EmptyString => None
       | String _ s' => option_map S (indexOfText s' pattern)
       end.

(** The replacement text of [String.prototype.replace] for a pattern that
    is a string: [$$] stands for a dollar, [$&] for the matched text,
    [$`] for what precedes it and [$'] for what follows it; there are no
    captures, so every other dollar stands for itself. *)
Fixpoint getSubstitution (matched before after replacement : string)
  : string :=
  match replacement with
  | EmptyString => EmptyString
  | String c tail =>
      if Ascii.eqb c "$" then
        match tail with
        | String d rest =>
            if Ascii.eqb d "$"
            then String "$" (getSubstitution matched before after rest)
            else if Ascii.eqb d "&"
            then matched ++ getSubstitution matched before after rest
            else if Ascii.eqb d "`"
            then before ++ getSubstitution matched before after rest
            else if Ascii.eqb d "'"
            then after ++ getSubstitution matched before after rest
            else String "$" (getSubstitution matched before after tail)
        | EmptyString => String "$" EmptyString
        end
      else String c (getSubstitution matched before after tail)
  end.

(** [s.replace(pattern, replacement)] with a string pattern: the first
    occurrence only. *)
Definition replaceText (s pattern replacement : string) : string :=
  match indexOfText s pattern with
  | None => s
  | Some position =>
      let before := takeText position s in
      let after := dropText (position + String.length pattern) s in
      before ++ getSubstitution pattern before after replacement ++ after
  end.

(* ===================================================================== *)
(** ** The set-up of a session *)
(* ===================================================================== *)

(** The command-line options that the set-up reads. *)
Record options := mkOptions {
  opt_network : string;
  opt_useOvm : bool;
  opt_providerUrl : option string;
  opt_useFork : bool;
  opt_deploymentPath : option string;
  opt_privateKey : option string
}.

(** [process.env], as far as the commands read it. *)
Record processEnv := mkProcessEnv {
  PRIVATE_KEY : option string;
  PROVIDER_URL : option string
}.

(** The packages the set-up calls. *)
Record host := mkHost {
  (** [synthetix.constants.DEPLOYMENT_FILENAME] *)
  DEPLOYMENT_FILENAME : string;
  (** [path.join(deploymentPath, file)] *)
  pathJoin : string -> string -> string;
  (** [getPathToNetwork({ network, useOvm, file })] *)
  getPathToNetwork : string -> bool -> string -> string;
  (** [getUsers({ user: 'owner' }).address] *)
  ownerAddress : string
}.

(** What the set-up arrives at: the deployment file to read and the
    arguments of [setupProvider]. *)
Record settings := mkSettings {
  deploymentFilePath : string;
  providerUrl : option string;
  privateKey : option string;
  publicKey : option string
}.

Definition forkUrl : string := "http://localhost:8545".

(** Lines 47 to 83 of [interactiveUi]. *)
Definition setUp (h : host) (opts : options) (env : processEnv) : settings :=
  let file := DEPLOYMENT_FILENAME h in
  let deploymentFilePath :=
    if JS.truthy (opt_deploymentPath opts)
    then pathJoin h (JS.template (opt_deploymentPath opts)) file
    else getPathToNetwork h (opt_network opts) (opt_useOvm opts) file in
  let providerUrl := opt_providerUrl opts in
  let privateKey := opt_privateKey opts in
  let publicKey : option string := None in
  let providerUrl := if opt_useFork opts then Some forkUrl else providerUrl in
  let publicKey :=
    if opt_useFork opts && negb (JS.truthy privateKey)
    then Some (ownerAddress h) else publicKey in
  let privateKey :=
    if negb (JS.truthy privateKey) && JS.truthy (PRIVATE_KEY env)
    then PRIVATE_KEY env else privateKey in
  let providerUrl :=
    if negb (JS.truthy providerUrl) && JS.truthy (PROVIDER_URL env)
    then
      let envProviderUrl := JS.template (PROVIDER_URL env) in
      if JS.includes envProviderUrl "infura"
      then Some (replaceText envProviderUrl "network" (opt_network opts))
      else Some envProviderUrl
    else providerUrl in
  mkSettings deploymentFilePath providerUrl privateKey publicKey.

(** The provider line of the banner: the first 25 characters of
    [providerUrl] and three dots, or ['Ethers default provider']. *)
Definition providerLine (providerUrl : option string) : string :=
  "> Provider: " ++
  (if JS.truthy providerUrl
   then takeText 25 (JS.template providerUrl) ++ "..."
   else "Ethers default provider").

(** The provider of the [status] command:
    [if (!providerUrl && process.env.PROVIDER_URL)
       providerUrl = process.env.PROVIDER_URL.replace('network', network)]. *)
Definition statusProviderUrl (network : string) (providerUrl : option string)
           (env : processEnv) : option string :=
  if negb (JS.truthy providerUrl) && JS.truthy (PROVIDER_URL env)
  then Some (replaceText (JS.template (PROVIDER_URL env)) "network" network)
  else providerUrl.

(* ===================================================================== *)
(** ** The edit distance by its recurrence *)
(* ===================================================================== *)

(** The Levenshtein recurrence: the distance to the empty text is the
    length; otherwise the cheapest of a deletion, an insertion and a
    substitution (free when the characters agree). *)
Fixpoint editDistance (a b : list ascii) : nat :=
  match a with
  | [] => length b
  | x :: a' =>
      (fix against (b : list ascii) : nat :=
         match b with
         | [] => S (length a')
         | y :: b' =>
             Nat.min (Nat.min (editDistance a' b + 1) (against b' + 1))
                     (editDistance a' b' + if Ascii.eqb x y then 0 else 1)
         end) b
  end.

(** The cells that the row of [a] holds right of its first cell: the
    distances from [a] to the texts that grow [b] by the characters of
    [more], one at a time.  Texts are read from their last character. *)
Fixpoint rowCells (a b more : list ascii) : list nat :=
  match more with
  | [] => []
  | d :: more' => editDistance a (d :: b) :: rowCells a (d :: b) more'
  end.

(** An ABI entry that the function selector may list: a named entry of
    type ['function']. *)
Definition isNamedFunction (item : abiItem) : bool :=
  JS.truthy (item_name item) && String.eqb (item_type item) "function".

(** The events of the printing of several outputs, the [i]-th output next
    to the [i]-th element of the result. *)
Definition labelled (env : collaborators) (result : value)
           (numbered : nat * param) : event :=
  PrintOutput (p_name (snd numbered)) (p_type (snd numbered))
              (printReturnedValue env (index result (fst numbered))).

(** Events that belong to a transaction or to its confirmation. *)
Definition isTransactional (e : event) : bool :=
  match e with
  | PromptConfirm | Send _ | StageTx _ | SubmitTx _ | AwaitReceipt _ => true
  | _ => false
  end.


Module SampleSetup.

Definition machine : host :=
  mkHost "deployment.json"
         (fun dir file => dir ++ "/" ++ file)
         (fun network useOvm file =>
            "publish/deployed/" ++ network
              ++ (if useOvm then "-ovm" else EmptyString) ++ "/" ++ file)
         "0xEb3107117FEAd7de89Cd14D463D340A2E6917769".

Definition infura : processEnv :=
  mkProcessEnv (Some "0xkey")
               (Some "https://network.infura.io/v3/project").

Definition ownNode : processEnv :=
  mkProcessEnv None (Some "http://network-node.local:8545").

Definition plain : options :=
  mkOptions "kovan" false None false None None.

Definition forked : options :=
  mkOptions "mainnet" false (Some "https://example.org") true None None.

End SampleSetup.

(* ===================================================================== *)
(** ** The model at work *)
(* ===================================================================== *)

Example split_commas : JS.split "," "a,b,c" = ["a"; "b"; "c"].
Proof. reflexivity. Qed.

Example split_keeps_empty_pieces :
  JS.split "," ",a," = [EmptyString; "a"; EmptyString].
Proof. reflexivity. Qed.

Example splice_from_the_end :
  JS.splice ["a"; "b"; "c"] (-1) 1 [] = ["a"; "b"].
Proof. reflexivity. Qed.

Example levenshtein_kitten : levenshtein "kitten" "sitting" = 3%Z.
Proof. reflexivity. Qed.

Example levenshtein_empty : levenshtein EmptyString "burn" = 4%Z.
Proof. reflexivity. Qed.

Example signature_of_a_view :
  reduceSignature Sample.rateAndTime =
  "rateAndTime(bytes32 currencyKey) view returns(uint256 rate, uint256 time)".
Proof. reflexivity. Qed.

Example candidates_for_b :
  searchAbi Sample.sampleAbi (Some "B") =
  ["burn(uint256 amount)"; "burn(address from, uint256 amount)";
   "balanceOf(address account) view returns(uint256)"].
Proof. reflexivity. Qed.

Example back_entry_first :
  nth_error (searchAbi Sample.sampleAbi None) 0 = Some escItem.
Proof. reflexivity. Qed.

(** A view call with the two outputs [rate] and [time] prints both, each
    under its name. *)
Example two_outputs_printed :
  history
    (snd (pickFunction Sample.env Sample.ctx 2 Sample.sampleContract
                       Sample.sampleSource
                       (Sample.begin [Choose (Some "rate") 0; Typed "sUSD"])))
  = [PromptFunction;
     PromptInput "currencyKey (uses toBytes32)" "currencyKey";
     LogRawInputs "sUSD";
     LogProcessedInputs 1 (VString ("0x73555344" ++ Sample.zeros 56));
     Log "  > Querying...";
     Query Sample.sampleContract "rateAndTime"
           [VString ("0x73555344" ++ Sample.zeros 56)];
     Log "  > Transaction sent...";
     LogReceipt (VArray [VBigNumber 7; VBigNumber 1600000000])
                Sample.sampleContract;
     PrintOutput (Some "rate") "uint256"
                 (VString "7 (0.000000000000000007)");
     PrintOutput (Some "time") "uint256"
                 (VString "1600000000 (0.000000000000000007)");
     PromptFunction].
Proof. vm_compute. reflexivity. Qed.

(* ===================================================================== *)
(** ** Facts about the built-ins *)
(* ===================================================================== *)

Section BuiltIns.

Import JS.

Lemma startsWith_spec needle : forall hay,
  startsWith hay needle = true <-> exists post, hay = needle ++ post.
Proof.
  induction needle as [|a needle IH]; intros hay; simpl.
  - split; [intros _; exists hay; reflexivity | reflexivity].
  - destruct hay as [|b hay].
    + split; [discriminate | intros [post H]; discriminate].
    + rewrite andb_true_iff, Ascii.eqb_eq, IH. split.
      * intros [-> [post ->]]. exists post. reflexivity.
      * intros [post H]. injection H as -> ->. split; eauto.
Qed.

Lemma includes_unfold hay needle :
  includes hay needle =
  startsWith hay needle ||
  match hay with
  | EmptyString => false
  | String _ h' => includes h' needle
  end.
Proof. destruct hay; reflexivity. Qed.

(** [includes] decides the substring relation. *)
Lemma includes_spec needle : forall hay,
  includes hay needle = true <->
  exists pre post, hay = pre ++ needle ++ post.
Proof.
  induction hay as [|c hay IH]; rewrite includes_unfold, orb_true_iff.
  - split.
    + intros [H | H]; [| discriminate].
      apply startsWith_spec in H as [post H]. exists EmptyString, post. exact H.
    + intros (pre & post & H). left. apply startsWith_spec.
      destruct pre; [exists post; exact H | discriminate].
  - split.
    + intros [H | H].
      * apply startsWith_spec in H as [post H].
        exists EmptyString, post. exact H.
      * apply IH in H as (pre & post & ->).
        exists (String c pre), post. reflexivity.
    + intros (pre & post & H). destruct pre as [|c' pre].
      * left. apply startsWith_spec. exists post. exact H.
      * right. apply IH. injection H as _ ->. eauto.
Qed.

Lemma includes_empty hay : includes hay EmptyString = true.
Proof. apply includes_spec. exists EmptyString, hay. reflexivity. Qed.

Lemma split_not_nil sep s : split sep s <> [].
Proof.
  destruct s as [|c t]; simpl; [discriminate |].
  destruct (Ascii.eqb c sep); [discriminate |].
  destruct (split sep t); discriminate.
Qed.

(** The first piece of a split is the text before the first separator. *)
Lemma split_first sep before after :
  free_of sep before = true ->
  nth 0 (split sep (before ++ String sep after)) EmptyString = before.
Proof.
  induction before as [|c before IH]; simpl; intros H.
  - rewrite Ascii.eqb_refl. reflexivity.
  - apply andb_true_iff in H as [Hc H]. apply negb_true_iff in Hc.
    rewrite Hc. specialize (IH H).
    destruct (split sep (before ++ String sep after)) eqn:E.
    + exfalso. exact (split_not_nil _ _ E).
    + simpl in IH. subst. reflexivity.
Qed.

Lemma split_free sep s : free_of sep s = true -> split sep s = [s].
Proof.
  induction s as [|c s IH]; simpl; intros H; [reflexivity |].
  apply andb_true_iff in H as [Hc H]. apply negb_true_iff in Hc.
  rewrite Hc, (IH H). reflexivity.
Qed.

Lemma indexOf_range x arr :
  (indexOf x arr = -1 \/ 0 <= indexOf x arr < Z.of_nat (length arr))%Z.
Proof.
  induction arr as [|y arr IH]; simpl indexOf; [left; reflexivity |].
  destruct (String.eqb y x); [right; simpl length; lia |].
  destruct (Z.ltb_spec (indexOf x arr) 0); [left; reflexivity |].
  right. simpl length. lia.
Qed.

Lemma indexOf_absent x arr : ~ In x arr -> indexOf x arr = (-1)%Z.
Proof.
  induction arr as [|y arr IH]; simpl; intros H; [reflexivity |].
  destruct (String.eqb_spec y x) as [-> | _]; [tauto |].
  rewrite IH by tauto. reflexivity.
Qed.

Lemma indexOf_first x pre post :
  ~ In x pre -> indexOf x (pre ++ x :: post) = Z.of_nat (length pre).
Proof.
  induction pre as [|y pre IH]; simpl; intros H.
  - rewrite String.eqb_refl. reflexivity.
  - destruct (String.eqb_spec y x) as [-> | _]; [tauto |].
    rewrite IH by tauto.
    destruct (Z.ltb_spec (Z.of_nat (length pre)) 0); lia.
Qed.

(** [arr.splice(-1, 1)] drops the last element, if there is one. *)
Lemma splice_last {A} (arr : list A) :
  splice arr (-1) 1 [] = removelast arr.
Proof.
  unfold splice. simpl app.
  destruct arr as [|a arr]; [reflexivity |].
  set (l := a :: arr).
  assert (Hlen : (0 < length l)%nat) by (simpl; lia).
  replace (-1 <? 0)%Z with true by reflexivity.
  replace (Z.max (Z.of_nat (length l) + -1) 0)
    with (Z.of_nat (length l) - 1)%Z by lia.
  replace (Z.min (Z.max 1 0) (Z.of_nat (length l) - (Z.of_nat (length l) - 1)))
    with 1%Z by lia.
  replace (Z.to_nat (Z.of_nat (length l) - 1)) with (pred (length l)) by lia.
  replace (Z.to_nat (Z.of_nat (length l) - 1 + 1)) with (length l) by lia.
  rewrite skipn_all, app_nil_r. symmetry. apply removelast_firstn_len.
Qed.

(** [arr.splice(i, 1)] at the index of an element removes that element. *)
Lemma splice_at {A} (pre post : list A) x :
  splice (pre ++ x :: post) (Z.of_nat (length pre)) 1 [] = (pre ++ post)%list.
Proof.
  unfold splice. simpl app. rewrite length_app. simpl length.
  destruct (Z.ltb_spec (Z.of_nat (length pre)) 0); [lia |].
  replace (Z.min (Z.of_nat (length pre))
                 (Z.of_nat (length pre + S (length post))))
    with (Z.of_nat (length pre)) by lia.
  replace (Z.min (Z.max 1 0)
                 (Z.of_nat (length pre + S (length post))
                  - Z.of_nat (length pre))) with 1%Z by lia.
  rewrite Nat2Z.id.
  replace (Z.to_nat (Z.of_nat (length pre) + 1)) with (length pre + 1)%nat
    by lia.
  rewrite firstn_app, firstn_all, Nat.sub_diag. simpl firstn.
  rewrite app_nil_r, skipn_app, skipn_all2 by lia.
  replace (length pre + 1 - length pre)%nat with 1%nat by lia.
  reflexivity.
Qed.

(** [arr.splice(0, 0, x)] puts [x] in front. *)
Lemma splice_front {A} (arr : list A) x :
  splice arr 0 0 [x] = x :: arr.
Proof.
  unfold splice.
  replace (0 <? 0)%Z with false by reflexivity.
  replace (Z.min 0 (Z.of_nat (length arr))) with 0%Z by lia.
  replace (Z.min (Z.max 0 0) (Z.of_nat (length arr) - 0)) with 0%Z by lia.
  reflexivity.
Qed.

End BuiltIns.

(* ===================================================================== *)
(** ** Facts about the stable sort *)
(* ===================================================================== *)

Section StableSort.

Context {A : Type} (key : A -> Z).

Lemma insert_perm (compare : A -> A -> Z) x sorted :
  Permutation (JS.insert compare x sorted) (x :: sorted).
Proof.
  induction sorted as [|y rest IH]; simpl; [reflexivity |].
  destruct (compare x y <=? 0)%Z; [reflexivity |].
  rewrite IH. apply perm_swap.
Qed.

Lemma sort_perm (compare : A -> A -> Z) arr :
  Permutation (JS.sort compare arr) arr.
Proof.
  induction arr as [|x arr IH]; simpl; [reflexivity |].
  rewrite insert_perm, IH. reflexivity.
Qed.

Lemma insert_hdrel x y rest :
  (ascending key) y x -> HdRel (ascending key) y rest ->
  HdRel (ascending key) y (JS.insert (comparing key) x rest).
Proof.
  intros Hyx Hrest. destruct rest as [|z rest]; simpl.
  - constructor. exact Hyx.
  - destruct ((comparing key) x z <=? 0)%Z; constructor; [exact Hyx |].
    inversion Hrest; assumption.
Qed.

Lemma insert_sorted x sorted :
  Sorted (ascending key) sorted ->
  Sorted (ascending key) (JS.insert (comparing key) x sorted).
Proof.
  induction 1 as [|y rest Hsorted IH Hhd]; simpl.
  - repeat constructor.
  - destruct (Z.leb_spec ((comparing key) x y) 0) as [Hle | Hgt].
    + constructor; [constructor; assumption |].
      constructor. unfold ascending, comparing in *. lia.
    + constructor; [exact IH |].
      apply insert_hdrel; [| exact Hhd].
      unfold ascending, comparing in *. lia.
Qed.

Lemma sort_sorted arr : Sorted (ascending key) (JS.sort (comparing key) arr).
Proof.
  induction arr as [|x arr IH]; simpl; [constructor |].
  apply insert_sorted, IH.
Qed.

(** Insertion leaves the elements of any one key in the order they had,
    the inserted element in front of them. *)
Lemma insert_stable d x sorted :
  filter (fun a => key a =? d)%Z (JS.insert (comparing key) x sorted) =
  filter (fun a => key a =? d)%Z (x :: sorted).
Proof.
  induction sorted as [|y rest IH]; [reflexivity |].
  simpl JS.insert. destruct (Z.leb_spec ((comparing key) x y) 0) as [Hle | Hgt];
    [reflexivity |].
  simpl filter in *. rewrite IH. unfold comparing in Hgt.
  destruct (Z.eqb_spec (key x) d), (Z.eqb_spec (key y) d);
    try reflexivity; lia.
Qed.

Lemma sort_stable d arr :
  filter (fun a => key a =? d)%Z (JS.sort (comparing key) arr) =
  filter (fun a => key a =? d)%Z arr.
Proof.
  induction arr as [|x arr IH]; [reflexivity |].
  simpl JS.sort. rewrite insert_stable. simpl. rewrite IH. reflexivity.
Qed.

Lemma sorted_adjacent (l : list A) :
  Sorted (ascending key) l ->
  forall i a b,
    nth_error l i = Some a -> nth_error l (S i) = Some b ->
    (key a <= key b)%Z.
Proof.
  induction 1 as [|x rest Hsorted IH Hhd]; intros i a b Ha Hb.
  - destruct i; discriminate.
  - destruct i as [|i].
    + simpl in Ha, Hb. injection Ha as <-.
      destruct rest as [|y rest]; [discriminate |].
      simpl in Hb. injection Hb as <-. inversion Hhd. assumption.
    + simpl in Ha. apply (IH i a b Ha Hb).
Qed.

End StableSort.

(* ===================================================================== *)
(** ** Contract navigator *)
(* ===================================================================== *)

(** When the pinned name is listed, the pinning moves its first occurrence
    to the front and keeps everything else in place. *)
Lemma prioritizeTarget_present itemName pre post :
  ~ In itemName pre ->
  prioritizeTarget itemName (pre ++ itemName :: post) =
  itemName :: (pre ++ post)%list.
Proof.
  intros H. unfold prioritizeTarget, JS.unshift.
  rewrite indexOf_first by exact H. rewrite splice_at. reflexivity.
Qed.

Lemma prioritizeTarget_absent itemName targets :
  ~ In itemName targets ->
  prioritizeTarget itemName targets = itemName :: removelast targets.
Proof.
  intros H. unfold prioritizeTarget, JS.unshift.
  rewrite indexOf_absent by exact H. rewrite splice_last. reflexivity.
Qed.

(** Before anything is typed, the navigator presents the whole list. *)
Lemma searchTargets_no_query targets : searchTargets targets None = targets.
Proof.
  unfold searchTargets. change (JS.toLowerCase EmptyString) with EmptyString.
  induction targets as [|t targets IH]; cbn [filter]; [reflexivity |].
  rewrite includes_empty, IH. reflexivity.
Qed.

(** C7: whatever the order of the contract names, the pinning step leaves
    the main contract, "Synthetix", at position 0 of the list, and so at
    position 0 of what the navigator presents before anything is typed. *)
Theorem prioritizeTarget_pins_first (targets : list string) :
  nth_error (prioritizeTarget mainContract targets) 0 = Some mainContract
  /\ nth_error (searchTargets (prioritizeTarget mainContract targets) None) 0
     = Some mainContract.
Proof.
  split; [reflexivity |].
  rewrite searchTargets_no_query. reflexivity.
Qed.

(** C8: when "Synthetix" is not among the contract names, the pinning step
    splices at index -1: the presented list is "Synthetix" followed by the
    names without the last one, so the last name of the deployment is no
    longer offered. *)
Theorem prioritizeTarget_absent_drops_last (targets : list string) :
  ~ In mainContract targets ->
  prioritizeTarget mainContract targets = mainContract :: removelast targets
  /\ forall kept lastName,
       targets = (kept ++ [lastName])%list ->
       prioritizeTarget mainContract targets = mainContract :: kept
       /\ (NoDup targets ->
           ~ In lastName (prioritizeTarget mainContract targets)).
Proof.
  intros Habsent. pose proof (prioritizeTarget_absent _ _ Habsent) as E.
  split; [exact E |].
  intros kept lastName ->. rewrite removelast_last in E.
  split; [exact E |].
  intros Hnodup. rewrite E. intros [Hmain | Hkept].
  - apply Habsent. rewrite Hmain. apply in_or_app. right. left. reflexivity.
  - apply NoDup_remove_2 in Hnodup. rewrite app_nil_r in Hnodup. tauto.
Qed.

Lemma prioritizeTarget_absent_drops_last_witness :
  prioritizeTarget mainContract (deploymentTargets Sample.ctxWithoutMain)
  = ["Synthetix"; "FeePool"]
  /\ ~ In "SynthsUSD"
       (prioritizeTarget mainContract
                         (deploymentTargets Sample.ctxWithoutMain)).
Proof.
  assert (Habsent :
            ~ In mainContract (deploymentTargets Sample.ctxWithoutMain)).
  { simpl. intros [H | [H | []]]; discriminate H. }
  destruct (prioritizeTarget_absent_drops_last _ Habsent) as [_ Hlast].
  destruct (Hlast ["FeePool"] "SynthsUSD" eq_refl) as [Hkept Hgone].
  split; [exact Hkept |].
  apply Hgone. simpl. repeat constructor; simpl; intuition discriminate.
Defined.

(* ===================================================================== *)
(** ** Input coercion *)
(* ===================================================================== *)

Lemma processInput_bytes32_array_split toBytes32 type raw :
  requiresBytes32Util type = true ->
  isArray type = true ->
  processInput toBytes32 type raw =
  VArray (map (fun item => VString (toBytes32 item)) (JS.split "," raw)).
Proof.
  intros Hword Harr. unfold processInput. rewrite Harr, Hword. reflexivity.
Qed.

(** C4: for a parameter whose type is both an array and a fixed word, the
    raw input "a,b,c" is split on the commas and each piece is encoded:
    the argument is the sequence of the encodings of "a", "b" and "c", in
    that order. *)
Theorem processInput_bytes32_array (toBytes32 : string -> string)
        (type : string) :
  requiresBytes32Util type = true ->
  isArray type = true ->
  processInput toBytes32 type "a,b,c" =
  VArray [VString (toBytes32 "a"); VString (toBytes32 "b");
          VString (toBytes32 "c")].
Proof.
  intros Hword Harr.
  rewrite processInput_bytes32_array_split by assumption. reflexivity.
Qed.

Lemma processInput_bytes32_array_witness :
  requiresBytes32Util "bytes32[]" = true
  /\ isArray "bytes32[]" = true
  /\ processInput Sample.bytes32OfText "bytes32[]" "a,b,c" =
     VArray
       [VString ("0x61" ++ Sample.zeros 62);
        VString ("0x62" ++ Sample.zeros 62);
        VString ("0x63" ++ Sample.zeros 62)].
Proof.
  split; [reflexivity |]. split; [reflexivity |].
  apply (processInput_bytes32_array Sample.bytes32OfText "bytes32[]");
    reflexivity.
Defined.

(* ===================================================================== *)
(** ** Function selector *)
(* ===================================================================== *)

Lemma byProximity_key query a b :
  byProximity query a b = (proximity query a - proximity query b)%Z.
Proof. reflexivity. Qed.

Lemma abiMatches_by_key abi query :
  abiMatches abi query =
  JS.sort (comparing (proximity query)) (filter (abiFilter query) abi).
Proof. reflexivity. Qed.

(** The candidates are the entries that pass the filter, reordered. *)
Lemma abiMatches_perm abi query :
  Permutation (abiMatches abi query) (filter (abiFilter query) abi).
Proof. apply sort_perm. Qed.

Lemma searchAbi_signatures abi query :
  searchAbi abi (Some query) =
  ((if String.eqb query EmptyString then [escItem] else [])
     ++ map reduceSignature (abiMatches abi query))%list.
Proof.
  unfold searchAbi. destruct (String.eqb query EmptyString); [| reflexivity].
  apply splice_front.
Qed.

(** What the filter of [searchAbi] lets through. *)
Lemma abiFilter_spec query item :
  abiFilter query item = true <->
  item_type item = "function"
  /\ exists n, item_name item = Some n /\ n <> EmptyString
               /\ containsIgnoringCase n query.
Proof.
  unfold abiFilter, containsIgnoringCase.
  destruct (item_name item) as [[|c n] |]; simpl JS.truthy; simpl andb.
  - split; [discriminate |]. intros (_ & n & H & Hn & _).
    injection H as <-. congruence.
  - simpl JS.template.
    destruct (String.eqb_spec (item_type item) "function") as [Htype | Htype].
    + rewrite includes_spec. split.
      * intros H. split; [exact Htype |]. exists (String c n).
        repeat split; [discriminate | exact H].
      * intros (_ & n' & H & _ & Hsub). injection H as <-. exact Hsub.
    + split; [discriminate | tauto].
  - split; [discriminate |]. intros (_ & n & H & _). discriminate.
Qed.

(** C5: for every query, the function candidates are in ascending order of
    edit distance between their name and the query (each candidate is at
    most as far from the query as the next one), and the candidates at any
    one distance appear in the order the ABI lists them.  The signatures
    shown follow that order, after the back entry when the query is
    empty. *)
Theorem searchAbi_ranked (abi : list abiItem) (query : string) :
  (forall i a b,
      nth_error (abiMatches abi query) i = Some a ->
      nth_error (abiMatches abi query) (S i) = Some b ->
      (proximity query a <= proximity query b)%Z)
  /\ (forall d,
         filter (fun m => proximity query m =? d)%Z (abiMatches abi query) =
         filter (fun m => proximity query m =? d)%Z
                (filter (abiFilter query) abi))
  /\ searchAbi abi (Some query) =
     ((if String.eqb query EmptyString then [escItem] else [])
        ++ map reduceSignature (abiMatches abi query))%list.
Proof.
  rewrite abiMatches_by_key. repeat split.
  - apply (sorted_adjacent (proximity query)), sort_sorted.
  - intros d. apply (sort_stable (proximity query)).
  - apply searchAbi_signatures.
Qed.

Lemma searchAbi_ranked_witness :
  (proximity "b" Sample.burn <= proximity "b" Sample.burnFor)%Z
  /\ (proximity "b" Sample.burnFor <= proximity "b" Sample.balanceOf)%Z.
Proof.
  split.
  - apply (proj1 (searchAbi_ranked Sample.sampleAbi "b") 0); reflexivity.
  - apply (proj1 (searchAbi_ranked Sample.sampleAbi "b") 1); reflexivity.
Defined.

(** C6: for every non-empty query, the contract names kept by the
    navigator's search are exactly the names of the list that contain the
    query as a substring, letter case set aside; the signatures kept by the
    function selector's search are exactly those of the ABI entries of type
    "function" that have a name containing the query in the same sense. *)
Theorem search_keeps_exactly_the_matches
        (targets : list string) (abi : list abiItem) (query : string) :
  query <> EmptyString ->
  (forall name,
      In name (searchTargets targets (Some query)) <->
      In name targets /\ containsIgnoringCase name query)
  /\ (forall signature,
         In signature (searchAbi abi (Some query)) <->
         exists item,
           In item abi
           /\ item_type item = "function"
           /\ (exists n, item_name item = Some n /\ n <> EmptyString
                         /\ containsIgnoringCase n query)
           /\ signature = reduceSignature item).
Proof.
  intros Hquery. split.
  - intros name. unfold searchTargets, containsIgnoringCase.
    rewrite filter_In, includes_spec. reflexivity.
  - intros signature. rewrite searchAbi_signatures.
    destruct (String.eqb_spec query EmptyString) as [E | _]; [contradiction |].
    simpl app. rewrite in_map_iff. split.
    + intros (item & Hsig & Hin).
      apply (Permutation_in _ (abiMatches_perm abi query)) in Hin.
      apply filter_In in Hin as [Hin Hpass].
      apply abiFilter_spec in Hpass as [Htype Hname].
      exists item. auto.
    + intros (item & Hin & Htype & Hname & ->).
      exists item. split; [reflexivity |].
      apply (Permutation_in _ (Permutation_sym (abiMatches_perm abi query))).
      apply filter_In. split; [exact Hin |].
      apply abiFilter_spec. auto.
Qed.

Lemma search_keeps_exactly_the_matches_witness :
  In "SynthsUSD"
     (searchTargets (prioritizeTarget mainContract
                                      (deploymentTargets Sample.ctx))
                    (Some "USD"))
  /\ In (reduceSignature Sample.balanceOf)
        (searchAbi Sample.sampleAbi (Some "OF")).
Proof.
  assert (Hquery : "USD" <> EmptyString) by discriminate.
  assert (Hquery' : "OF" <> EmptyString) by discriminate.
  split.
  - apply (proj1 (search_keeps_exactly_the_matches
                    (prioritizeTarget mainContract
                                      (deploymentTargets Sample.ctx))
                    Sample.sampleAbi "USD" Hquery)).
    split; [simpl; tauto |]. exists "synths", EmptyString. reflexivity.
  - apply (proj2 (search_keeps_exactly_the_matches
                    [] Sample.sampleAbi "OF" Hquery')).
    exists Sample.balanceOf. repeat split.
    + simpl. tauto.
    + exists "balanceOf". repeat split; [discriminate |].
      exists "balance", EmptyString. reflexivity.
Defined.

Lemma find_first {A} (p : A -> bool) (l : list A) (x : A) :
  find p l = Some x <->
  exists pre post,
    l = (pre ++ x :: post)%list /\ p x = true
    /\ forall y, In y pre -> p y = false.
Proof.
  induction l as [|a l IH]; simpl.
  - split; [discriminate |]. intros (pre & post & H & _).
    destruct pre; discriminate.
  - destruct (p a) eqn:Ea.
    + split.
      * intros H. injection H as <-. exists [], l. simpl. tauto.
      * intros (pre & post & H & Hx & Hpre). destruct pre as [|b pre].
        -- injection H as -> _. reflexivity.
        -- injection H as -> _. rewrite (Hpre b) in Ea by (left; reflexivity).
           discriminate.
    + rewrite IH. split.
      * intros (pre & post & -> & Hx & Hpre). exists (a :: pre), post.
        repeat split; [exact Hx |]. intros y [<- | Hy]; auto.
      * intros (pre & post & H & Hx & Hpre). destruct pre as [|b pre].
        -- injection H as -> _. congruence.
        -- injection H as -> ->. exists pre, post.
           repeat split; [exact Hx |]. intros y Hy. apply Hpre. right. exact Hy.
Qed.

(** [findAbiItem] answers the first entry of the ABI that bears the name. *)
Lemma findAbiItem_spec abi abiItemName used :
  findAbiItem abi abiItemName = Some used <->
  exists pre post,
    abi = (pre ++ used :: post)%list
    /\ item_name used = Some abiItemName
    /\ forall other, In other pre -> item_name other <> Some abiItemName.
Proof.
  unfold findAbiItem. rewrite find_first.
  assert (Hname : forall item,
             match item_name item with
             | Some n => String.eqb n abiItemName
             | None => false
             end = true <-> item_name item = Some abiItemName).
  { intros item. destruct (item_name item) as [n |].
    - rewrite String.eqb_eq. split; congruence.
    - split; discriminate. }
  split; intros (pre & post & Habi & Hused & Hpre); exists pre, post;
    (split; [exact Habi |]); (split; [apply Hname; exact Hused |]);
    intros other Hin; specialize (Hpre other Hin).
  - intros Hother. apply Hname in Hother. congruence.
  - apply not_true_is_false. intros Hother. apply Hname in Hother. tauto.
Qed.

Lemma append_assoc (a b c : string) : (a ++ b) ++ c = a ++ (b ++ c).
Proof. induction a as [|x a IH]; simpl; [| rewrite IH]; reflexivity. Qed.

(** The text before the first parenthesis of a signature is the name of
    the entry it was made from. *)
Lemma abiItemNameOf_reduceSignature item n :
  item_name item = Some n ->
  JS.free_of "(" n = true ->
  abiItemNameOf (reduceSignature item) = n.
Proof.
  intros Hname Hfree. unfold reduceSignature, abiItemNameOf.
  rewrite Hname. simpl JS.template.
  rewrite append_assoc. simpl append at 2.
  apply split_first. exact Hfree.
Qed.

(** Once a signature other than the back entry is picked, [pickFunction]
    goes on with the entry that [findAbiItem] answers for the text before
    the first parenthesis. *)
Lemma pickFunction_body_selected env ctx pickContract pickFunction c src
      w query position later abiItemSignature abiItem params :
  script w = Choose query position :: later ->
  nth_error (searchAbi (abi src) query) position = Some abiItemSignature ->
  abiItemSignature <> escItem ->
  findAbiItem (abi src) (abiItemNameOf abiItemSignature) = Some abiItem ->
  item_inputs abiItem = Some params ->
  pickFunction_body env ctx pickContract pickFunction c src w =
  (inputs <- promptInputs env params ;;
   callFunction env ctx pickFunction c (abiItemNameOf abiItemSignature)
                abiItem inputs)
    (mkWorld later (PromptFunction :: trace w)).
Proof.
  intros Hscript Hnth Hesc Hfind Hinputs.
  unfold pickFunction_body, bind at 1, promptList.
  rewrite Hscript, Hnth. cbn [script trace].
  destruct (String.eqb_spec abiItemSignature escItem) as [E | _];
    [contradiction |].
  unfold bind at 1, ret. rewrite Hfind, Hinputs. reflexivity.
Qed.

(* ===================================================================== *)
(** ** Running the driver *)
(* ===================================================================== *)

Lemma history_extend later evs w :
  history (mkWorld later (rev evs ++ trace w)%list) = (history w ++ evs)%list.
Proof.
  unfold history. cbn [trace]. rewrite rev_app_distr, rev_involutive.
  reflexivity.
Qed.

Lemma history_afterInputs env w params raws later :
  history (afterInputs env w params raws later) =
  (history w ++ PromptFunction :: inputEvents env params raws)%list.
Proof.
  unfold afterInputs, history. cbn [trace].
  rewrite rev_app_distr, rev_involutive. simpl rev.
  rewrite <- app_assoc. reflexivity.
Qed.

(** One turn of the loop over the inputs, for a text that is typed. *)
Lemma promptInputs_step env input params raw later w :
  script w = Typed raw :: later ->
  promptInputs env (input :: params) w =
  match argument env input raw with
  | Fulfilled processed =>
      (inputs <- promptInputs env params ;; ret (processed :: inputs))
        (mkWorld later
           (LogProcessedInputs (processedCount (p_type input) processed)
                               processed
            :: logRaw (readAnswer (inputName input) raw)
            :: PromptInput (inputMessage input) (inputName input)
            :: trace w))
  | RejectedWith e =>
      (Threw e,
       mkWorld later
               (logRaw (readAnswer (inputName input) raw)
                :: PromptInput (inputMessage input) (inputName input)
                :: trace w))
  end.
Proof.
  intros Hscript. cbn [promptInputs]. unfold bind at 1, promptInput.
  rewrite Hscript. unfold bind at 1, emit at 1. cbn [script trace].
  unfold bind at 1. unfold argument.
  destruct (coerceAnswer env (p_type input)
                         (readAnswer (inputName input) raw));
    reflexivity.
Qed.

(** A text filed under a plain key is coerced by [processInput]. *)
Lemma argument_of_key env input raw :
  Lodash.isKey (inputName input) = true ->
  argument env input raw
  = Fulfilled (processInput (toBytes32 env) (p_type input) raw).
Proof.
  intros Hkey. unfold argument, readAnswer. rewrite Hkey. reflexivity.
Qed.

(** Parameters prompted under plain keys take every text. *)
Lemma inputsPass_keys env params : forall raws,
  Forall (fun input => Lodash.isKey (inputName input) = true) params ->
  inputsPass env params raws.
Proof.
  induction params as [|input params IH]; intros raws Hkeys;
    [exact I |].
  destruct raws as [|raw raws]; [exact I |].
  inversion Hkeys as [|? ? Hkey Hrest]; subst. split; [| apply IH, Hrest].
  eexists. apply argument_of_key, Hkey.
Qed.

(** The input prompts consume one typed answer per parameter. *)
Lemma promptInputs_run env params : forall raws later w,
  length raws = length params ->
  inputsPass env params raws ->
  script w = (map Typed raws ++ later)%list ->
  promptInputs env params w =
  (Returned (coerceInputs env params raws),
   mkWorld later (rev (inputEvents env params raws) ++ trace w)%list).
Proof.
  induction params as [|input params IH];
    intros raws later w Hlen Hpass Hscript.
  - destruct raws; [| discriminate]. simpl in Hscript.
    destruct w as [s t]. simpl in *. subst. reflexivity.
  - destruct raws as [|raw raws]; [discriminate |].
    simpl in Hlen. injection Hlen as Hlen. simpl in Hscript.
    destruct Hpass as [[processed Harg] Hpass].
    rewrite (promptInputs_step _ _ _ _ _ _ Hscript), Harg.
    unfold bind at 1.
    rewrite (IH raws later) by (cbn [script]; auto).
    unfold ret. cbn [coerceInputs inputEvents rev trace]. rewrite Harg.
    cbn [rev]. rewrite <- !app_assoc. reflexivity.
Qed.

(** A pass through [pickFunction] up to the call section. *)
Lemma pickFunction_round env ctx fuel c src w
      abiItemSignature abiItem params raws later :
  selects env src w abiItemSignature abiItem params raws later ->
  pickFunction env ctx (S fuel) c src w =
  callFunction env ctx (pickFunction env ctx fuel c src) c
               (abiItemNameOf abiItemSignature) abiItem
               (coerceInputs env params raws)
               (afterInputs env w params raws later).
Proof.
  intros [(query & position & Hscript & Hnth) Hback Hentry Hparams Hraws
          Hpass].
  cbn [pickFunction].
  rewrite (pickFunction_body_selected _ _ _ _ _ _ _ _ _ _ _ _ _
             Hscript Hnth Hback Hentry Hparams).
  unfold bind at 1.
  rewrite (promptInputs_run env params raws later) by (cbn [script]; auto).
  reflexivity.
Qed.

(** The call section when the user declines. *)
Lemma callFunction_declined env ctx next c fn abiItem inputs w later :
  isView abiItem = false ->
  script w = YesNo false :: later ->
  callFunction env ctx next c fn abiItem inputs w =
  next (mkWorld later (PromptConfirm :: trace w)).
Proof.
  intros Hview Hscript. unfold callFunction. rewrite Hview.
  unfold bind, promptConfirm. rewrite Hscript. reflexivity.
Qed.

(** The call section while the confirmation is not answered. *)
Lemma callFunction_unanswered env ctx next c fn abiItem inputs w :
  isView abiItem = false ->
  (forall yes later, script w <> YesNo yes :: later) ->
  callFunction env ctx next c fn abiItem inputs w =
  (Pending, mkWorld (script w) (PromptConfirm :: trace w)).
Proof.
  intros Hview Hscript. unfold callFunction. rewrite Hview.
  unfold bind, promptConfirm.
  destruct (script w) as [|[| |yes] later] eqn:E; try reflexivity.
  exfalso. exact (Hscript yes later eq_refl).
Qed.

(** The call section when the user confirms and the contract method
    hands back its promise. *)
Lemma callFunction_confirmed env ctx next c fn abiItem inputs w later :
  isView abiItem = false ->
  script w = YesNo true :: later ->
  transact env (mkTxPromise c fn inputs (txOverrides ctx)) = None ->
  callFunction env ctx next c fn abiItem inputs w =
  next (mkWorld later
          (rev (PromptConfirm ::
                transactionEvents env c
                  (mkTxPromise c fn inputs (txOverrides ctx)))
             ++ trace w)%list).
Proof.
  intros Hview Hscript Hmethod. unfold callFunction. rewrite Hview.
  unfold bind at 1, promptConfirm. rewrite Hscript. cbn [negb script trace].
  unfold transactionEvents, sendTransaction, callMethod, stageTx, runTx,
    conclude, report.
  unfold bind, emit, ret. cbn [script trace fst snd]. rewrite Hmethod.
  cbn [script trace fst snd].
  destruct (stage env _) as [tx | stageError]; cbn [script trace fst snd].
  - destruct (submit env tx) as [submitError |]; cbn [script trace fst snd].
    + reflexivity.
    + destruct (receipt env tx) as [mined | receiptError];
        cbn [script trace fst snd]; [rewrite Hview |]; reflexivity.
  - reflexivity.
Qed.

(** The call section when the user confirms and the contract method
    throws: the error leaves [pickFunction], nothing is staged. *)
Lemma callFunction_confirmed_throws env ctx next c fn abiItem inputs w later
      e :
  isView abiItem = false ->
  script w = YesNo true :: later ->
  transact env (mkTxPromise c fn inputs (txOverrides ctx)) = Some e ->
  callFunction env ctx next c fn abiItem inputs w =
  (Threw e,
   mkWorld later
           (rev [PromptConfirm; Log "  > Staging transaction...";
                 Send (mkTxPromise c fn inputs (txOverrides ctx))]
              ++ trace w)%list).
Proof.
  intros Hview Hscript Hmethod. unfold callFunction. rewrite Hview.
  unfold bind at 1, promptConfirm. rewrite Hscript. cbn [negb script trace].
  unfold sendTransaction, callMethod.
  unfold bind, emit, throw. cbn [script trace]. rewrite Hmethod.
  reflexivity.
Qed.

Lemma printEachOutput_run env outputs result : forall i w,
  printEachOutput env outputs result i w =
  (Returned tt,
   mkWorld (script w)
           (rev (eachOutputEvents env outputs result i) ++ trace w)%list).
Proof.
  induction outputs as [|output outputs IH]; intros i w.
  - destruct w. reflexivity.
  - cbn [printEachOutput eachOutputEvents]. unfold bind, emit.
    rewrite IH. cbn [script trace rev]. rewrite <- app_assoc. reflexivity.
Qed.

(** The printing of the outputs goes through when there is an output. *)
Lemma printOutputs_run env abiItem outputs result w :
  item_outputs abiItem = Some outputs ->
  outputs <> [] ->
  printOutputs env abiItem result w =
  (Returned tt,
   mkWorld (script w) (rev (printedEvents env outputs result) ++ trace w)%list).
Proof.
  intros Houtputs Hsome. unfold printOutputs. rewrite Houtputs.
  destruct outputs as [|output [|output' outputs]]; [contradiction | |].
  - reflexivity.
  - change (1 <? length (output :: output' :: outputs))%nat with true.
    cbv iota. apply printEachOutput_run.
Qed.

(** The printing reads [outputs[0]]: on an empty list, it faults. *)
Lemma printOutputs_empty env abiItem result w :
  item_outputs abiItem = Some [] ->
  printOutputs env abiItem result w =
  (Threw (TypeError "Cannot read property 'name' of undefined"), w).
Proof. intros Houtputs. unfold printOutputs. rewrite Houtputs. reflexivity. Qed.

(** The call section of a view function whose call is rejected. *)
Lemma callFunction_view_rejected env ctx next c fn abiItem inputs w err :
  isView abiItem = true ->
  call env c fn inputs = RejectedWith err ->
  callFunction env ctx next c fn abiItem inputs w =
  next (mkWorld (script w)
          (rev [Log "  > Querying..."; Query c fn inputs;
                Log "  > Transaction sent..."; LogError err]
             ++ trace w)%list).
Proof.
  intros Hview Hcall. unfold callFunction. rewrite Hview.
  unfold queryContract, conclude, report, bind, emit, ret. rewrite Hcall.
  reflexivity.
Qed.

(** The call section of a view function whose call returns, when the
    report has something to print or nothing to look at. *)
Lemma callFunction_view_returned env ctx next c fn abiItem inputs w
      result outputs :
  isView abiItem = true ->
  call env c fn inputs = Fulfilled result ->
  item_outputs abiItem = Some outputs ->
  is_undefined result = true \/ outputs <> [] ->
  callFunction env ctx next c fn abiItem inputs w =
  next (mkWorld (script w)
          (rev (queryEvents env c fn inputs result outputs) ++ trace w)%list).
Proof.
  intros Hview Hcall Houtputs Hprints. unfold callFunction. rewrite Hview.
  unfold queryContract, conclude, report, queryEvents.
  unfold bind, emit, ret. rewrite Hcall. cbn [fst snd script trace].
  rewrite Hview. destruct (is_undefined result) eqn:Hundef; cbn [negb andb].
  - reflexivity.
  - destruct Hprints as [Habs | Hsome]; [discriminate |].
    rewrite (printOutputs_run _ _ _ _ _ Houtputs Hsome).
    cbn [script trace]. rewrite rev_app_distr, <- app_assoc. reflexivity.
Qed.

(** The call section of a view function without outputs whose call
    returns a value. *)
Lemma callFunction_view_no_outputs env ctx next c fn abiItem inputs w result :
  isView abiItem = true ->
  call env c fn inputs = Fulfilled result ->
  item_outputs abiItem = Some [] ->
  is_undefined result = false ->
  callFunction env ctx next c fn abiItem inputs w =
  (Threw (TypeError "Cannot read property 'name' of undefined"),
   mkWorld (script w)
           (rev [Log "  > Querying..."; Query c fn inputs;
                 Log "  > Transaction sent..."; LogReceipt result c]
              ++ trace w)%list).
Proof.
  intros Hview Hcall Houtputs Hundef. unfold callFunction. rewrite Hview.
  unfold queryContract, conclude, report.
  unfold bind, emit, ret. rewrite Hcall. cbn [fst snd script trace].
  rewrite Hview, Hundef. cbn [negb andb].
  rewrite (printOutputs_empty _ _ _ _ Houtputs). reflexivity.
Qed.

(* ===================================================================== *)
(** ** The session does not end by itself *)
(* ===================================================================== *)

Section NeverReturns.

Lemma open_ended_pending {A} : open_ended (@Pending A).
Proof. left. reflexivity. Qed.

Lemma open_ended_threw {A} e : open_ended (@Threw A e).
Proof. right. exists e. reflexivity. Qed.

Hint Resolve open_ended_pending open_ended_threw : core.

Lemma open_ended_bind {A B} (m : M A) (k : A -> M B) w :
  open_ended (fst (m w)) -> open_ended (fst (bind m k w)).
Proof.
  unfold bind. destruct (m w) as [[a | e | |] w']; simpl;
    intros [H | [e' H]]; try discriminate; auto.
Qed.

Lemma steady_ret {A} (a : A) : steady (ret a).
Proof. intros w. simpl. lia. Qed.

Lemma steady_throw {A} e : steady (@throw A e).
Proof. intros w. simpl. auto. Qed.

Lemma steady_emit e : steady (emit e).
Proof. intros w. simpl. lia. Qed.

Lemma steady_bind {A B} (m : M A) (k : A -> M B) :
  steady m -> (forall a, steady (k a)) -> steady (bind m k).
Proof.
  intros Hm Hk w. unfold bind. specialize (Hm w).
  destruct (m w) as [[a | e | |] w1]; auto.
  - specialize (Hk a w1). destruct (k a w1) as [[b | e | |] w2]; auto. lia.
  - destruct Hm as [H | [e H]]; discriminate.
Qed.

Lemma steady_promptInput message name : steady (promptInput message name).
Proof.
  intros w. unfold promptInput.
  destruct (script w) as [|[| |] later]; simpl; auto; lia.
Qed.

Lemma steady_settle {A} (s : settled A) : steady (settle s).
Proof. destruct s; [apply steady_ret | apply steady_throw]. Qed.

Lemma steady_promptInputs env params : steady (promptInputs env params).
Proof.
  induction params as [|input params IH]; cbn [promptInputs].
  - apply steady_ret.
  - apply steady_bind; [apply steady_promptInput | intros answer].
    apply steady_bind; [apply steady_emit | intros _].
    apply steady_bind; [apply steady_settle | intros processed].
    apply steady_bind; [apply steady_emit | intros _].
    apply steady_bind; [exact IH | intros inputs]. apply steady_ret.
Qed.

Lemma steady_queryContract env c fn inputs :
  steady (queryContract env c fn inputs).
Proof.
  unfold queryContract.
  apply steady_bind; [apply steady_emit | intros _].
  apply steady_bind; [apply steady_emit | intros _].
  destruct (call env c fn inputs); apply steady_ret.
Qed.

Lemma steady_sendTransaction env ctx c fn inputs :
  steady (sendTransaction env ctx c fn inputs).
Proof.
  unfold sendTransaction, callMethod, stageTx, runTx.
  apply steady_bind; [apply steady_emit | intros _].
  apply steady_bind.
  { apply steady_bind; [apply steady_emit | intros _].
    destruct (transact env _); [apply steady_throw | apply steady_ret]. }
  intros p. apply steady_bind.
  { apply steady_bind; [apply steady_emit | intros _]. apply steady_ret. }
  intros [tx | e]; [| apply steady_ret].
  apply steady_bind; [apply steady_emit | intros _].
  apply steady_bind.
  { apply steady_bind; [apply steady_emit | intros _].
    destruct (submit env tx); [apply steady_ret |].
    apply steady_bind; [apply steady_emit | intros _]. apply steady_ret. }
  intros [mined | e]; apply steady_ret.
Qed.

Lemma steady_printEachOutput env outputs result :
  forall i, steady (printEachOutput env outputs result i).
Proof.
  induction outputs as [|output outputs IH]; intros i;
    cbn [printEachOutput].
  - apply steady_ret.
  - apply steady_bind; [apply steady_emit | intros _]. apply IH.
Qed.

Lemma steady_report env c abiItem result error :
  steady (report env c abiItem result error).
Proof.
  unfold report, printOutputs. destruct error; [apply steady_emit |].
  apply steady_bind; [apply steady_emit | intros _].
  destruct (isView abiItem && negb (is_undefined result));
    [| apply steady_ret].
  destruct (item_outputs abiItem) as [outputs |]; [| apply steady_throw].
  destruct (1 <? length outputs)%nat; [apply steady_printEachOutput |].
  destruct (nth_error outputs 0); [apply steady_emit | apply steady_throw].
Qed.

(** After a steady step, what does not return still does not return. *)
Lemma open_within_bind {A B} k (m : M A) (f : A -> M B) :
  steady m -> (forall a, open_within k (f a)) -> open_within k (bind m f).
Proof.
  intros Hm Hf w Hw. unfold bind. specialize (Hm w).
  destruct (m w) as [[a | e | |] w1]; simpl; auto.
  - apply Hf. lia.
  - destruct Hm as [H | [e H]]; discriminate.
Qed.

Lemma open_within_stuck {A B} k (m : M A) (f : A -> M B) :
  open_within k m -> open_within k (bind m f).
Proof. intros Hm w Hw. apply open_ended_bind, Hm, Hw. Qed.

Lemma open_within_throw {A} k e : open_within k (@throw A e).
Proof. intros w _. simpl. auto. Qed.

(** A list prompt takes one answer away, or waits. *)
Lemma open_within_promptList {B} k shown candidates (f : string -> M B) :
  (forall choice, open_within k (f choice)) ->
  open_within (S k) (bind (promptList shown candidates) f).
Proof.
  intros Hf w Hw. unfold bind, promptList.
  destruct (script w) as [|[query position | |] later] eqn:E; simpl; auto.
  destruct (nth_error (candidates query) position); simpl; auto.
  apply Hf. simpl in *. lia.
Qed.

Lemma open_within_promptConfirm {B} k (f : bool -> M B) :
  (forall yes, open_within k (f yes)) ->
  open_within k (bind promptConfirm f).
Proof.
  intros Hf w Hw. unfold bind, promptConfirm.
  destruct (script w) as [|[| |yes] later] eqn:E; simpl; auto.
  apply Hf. simpl in *. lia.
Qed.

Lemma open_within_conclude env k next c abiItem result error :
  open_within k next ->
  open_within k (conclude env next c abiItem result error).
Proof.
  intros Hnext. unfold conclude.
  apply open_within_bind; [apply steady_emit | intros _].
  apply open_within_bind; [apply steady_report | intros _]. exact Hnext.
Qed.

Lemma open_within_callFunction env ctx k next c fn abiItem inputs :
  open_within k next ->
  open_within k (callFunction env ctx next c fn abiItem inputs).
Proof.
  intros Hnext. unfold callFunction. destruct (isView abiItem).
  - apply open_within_bind; [apply steady_queryContract | intros r].
    apply open_within_conclude, Hnext.
  - apply open_within_promptConfirm. intros [|]; cbn [negb].
    + apply open_within_bind; [apply steady_sendTransaction | intros r].
      apply open_within_conclude, Hnext.
    + exact Hnext.
Qed.

Lemma open_within_pickFunction_body env ctx k back next c src :
  open_within k back -> open_within k next ->
  open_within (S k) (pickFunction_body env ctx back next c src).
Proof.
  intros Hback Hnext. unfold pickFunction_body.
  apply open_within_promptList. intros abiItemSignature.
  destruct (String.eqb abiItemSignature escItem).
  - apply open_within_stuck.
    apply open_within_bind; [apply steady_emit | intros _]. exact Hback.
  - apply open_within_bind; [apply steady_ret | intros _].
    destruct (findAbiItem _ _) as [abiItem |]; [| apply open_within_throw].
    destruct (item_inputs abiItem) as [params |];
      [| apply open_within_throw].
    apply open_within_bind; [apply steady_promptInputs | intros inputs].
    apply open_within_callFunction, Hnext.
Qed.

Lemma open_within_pickContract_body env ctx k next :
  (forall c src, open_within k (next c src)) ->
  open_within (S k) (pickContract_body env ctx next).
Proof.
  intros Hnext. unfold pickContract_body.
  apply open_within_promptList. intros contractName.
  destruct (getTarget env contractName) as [target |];
    [| apply open_within_throw].
  apply open_within_bind; [apply steady_emit | intros _].
  destruct (getSource env _) as [src |]; [| apply open_within_throw].
  apply open_within_bind; [| intros _; apply Hnext].
  destruct (String.eqb _ _); [apply steady_emit | apply steady_ret].
Qed.

(** With a budget above the number of answers, neither [pickContract] nor
    [pickFunction] returns and neither uses the budget up: they wait
    for the user, or they throw. *)
Lemma picks_open_ended env ctx : forall fuel,
  open_within fuel (pickContract env ctx (S fuel))
  /\ forall c src, open_within fuel (pickFunction env ctx (S fuel) c src).
Proof.
  assert (Hzero : forall A (m : M A) B shown candidates (f : string -> M B),
             open_within 0 (bind (promptList shown candidates) f)).
  { intros A m B shown candidates f w Hw. unfold bind, promptList.
    destruct (script w); simpl in *; [auto | lia]. }
  induction fuel as [|fuel [IHc IHf]].
  - split; [| intros c src]; apply (Hzero unit (ret tt)).
  - split; [| intros c src].
    + apply open_within_pickContract_body. exact IHf.
    + apply open_within_pickFunction_body; [exact IHc | apply IHf].
Qed.

End NeverReturns.

(* ===================================================================== *)
(** ** Call driver *)
(* ===================================================================== *)

Lemma inputEvents_no_phase env params : forall raws e,
  In e (inputEvents env params raws) -> isPhase e = false.
Proof.
  induction params as [|input params IH]; intros [|raw raws] e; simpl;
    try tauto.
  intros [<- | [<- | H]];
    [reflexivity | destruct (readAnswer _ raw); reflexivity |].
  destruct (argument env input raw); [| contradiction].
  destruct H as [<- | H]; [reflexivity | exact (IH raws e H)].
Qed.

Lemma inputEvents_no_report env params : forall raws e,
  In e (inputEvents env params raws) -> isReport e = false.
Proof.
  induction params as [|input params IH]; intros [|raw raws] e; simpl;
    try tauto.
  intros [<- | [<- | H]];
    [reflexivity | destruct (readAnswer _ raw); reflexivity |].
  destruct (argument env input raw); [| contradiction].
  destruct H as [<- | H]; [reflexivity | exact (IH raws e H)].
Qed.

(** Once a mutating call is confirmed and the contract method has handed
    back its promise, the transaction is staged, then submitted, then its
    receipt is awaited, in that order, and the first phase that fails ends
    the sequence and provides the error that is reported.  When the
    staging succeeds and the submission fails, the error reported is the
    one of the submission and the receipt is not awaited. *)
Lemma returned_promise_runs_phases_in_order
      (env : collaborators) (ctx : context) (next : M unit)
      (c : contract) (fn : string) (abiItem : abiItem)
      (inputs : list value) (w : world) (later : list answer) :
  isView abiItem = false ->
  script w = YesNo true :: later ->
  transact env (mkTxPromise c fn inputs (txOverrides ctx)) = None ->
  exists w' evs,
    callFunction env ctx next c fn abiItem inputs w = next w'
    /\ script w' = later
    /\ history w' =
       (history w ++
          PromptConfirm :: Log "  > Staging transaction..."
          :: Send (mkTxPromise c fn inputs (txOverrides ctx))
          :: StageTx (mkTxPromise c fn inputs (txOverrides ctx)) :: evs)%list
    /\ (forall stageError,
           stage env (mkTxPromise c fn inputs (txOverrides ctx))
           = RejectedWith stageError ->
           evs = [Log "  > Transaction sent..."; LogError stageError])
    /\ (forall tx submitError,
           stage env (mkTxPromise c fn inputs (txOverrides ctx))
           = Fulfilled tx ->
           submit env tx = Some submitError ->
           evs = [Log ("  > Sending transaction... " ++ tx); SubmitTx tx;
                  Log "  > Transaction sent..."; LogError submitError])
    /\ (forall tx receiptError,
           stage env (mkTxPromise c fn inputs (txOverrides ctx))
           = Fulfilled tx ->
           submit env tx = None ->
           receipt env tx = RejectedWith receiptError ->
           evs = [Log ("  > Sending transaction... " ++ tx); SubmitTx tx;
                  AwaitReceipt tx;
                  Log "  > Transaction sent..."; LogError receiptError])
    /\ (forall tx mined,
           stage env (mkTxPromise c fn inputs (txOverrides ctx))
           = Fulfilled tx ->
           submit env tx = None ->
           receipt env tx = Fulfilled mined ->
           evs = [Log ("  > Sending transaction... " ++ tx); SubmitTx tx;
                  AwaitReceipt tx;
                  Log "  > Transaction sent...";
                  LogReceipt (VReceipt mined) c]).
Proof.
  intros Hview Hscript Hmethod.
  rewrite (callFunction_confirmed _ _ _ _ _ _ _ _ _ Hview Hscript Hmethod).
  eexists. eexists. split; [reflexivity |]. split; [reflexivity |].
  split; [rewrite history_extend; reflexivity |].
  repeat split.
  - intros e ->. reflexivity.
  - intros tx e -> ->. reflexivity.
  - intros tx e -> -> ->. reflexivity.
  - intros tx mined -> -> ->. reflexivity.
Qed.

Example setKeys_submission_refused :
  exists w',
    callFunction Sample.env Sample.ctx (ret tt) Sample.sampleContract
                 "setKeys" Sample.setKeys [VArray [VString "0x61"]]
                 (Sample.begin [YesNo true])
    = (Returned tt, w')
    /\ history w' =
       [PromptConfirm; Log "  > Staging transaction...";
        Send (mkTxPromise Sample.sampleContract "setKeys"
                          [VArray [VString "0x61"]]
                          (txOverrides Sample.ctx));
        StageTx (mkTxPromise Sample.sampleContract "setKeys"
                             [VArray [VString "0x61"]]
                             (txOverrides Sample.ctx));
        Log "  > Sending transaction... 0xbeef"; SubmitTx "0xbeef";
        Log "  > Transaction sent..."; LogError (Rejected "nonce too low")].
Proof.
  destruct (returned_promise_runs_phases_in_order
              Sample.env Sample.ctx (ret tt) Sample.sampleContract
              "setKeys" Sample.setKeys [VArray [VString "0x61"]]
              (Sample.begin [YesNo true]) [] eq_refl eq_refl eq_refl)
    as (w' & evs & Hrun & _ & Hhistory & _ & Hsubmit & _).
  exists w'. split; [exact Hrun |].
  rewrite Hhistory.
  rewrite (Hsubmit "0xbeef" (Rejected "nonce too low") eq_refl eq_refl).
  reflexivity.
Qed.

(** C1, where the driver departs from it.  The call
    [contract[abiItemName](...inputs, overrides)] stands outside any
    [try], unlike the same call of the view branch.  When it throws (the
    binding has no method of that name), a call that the user has
    confirmed runs no phase at all: nothing is staged, submitted or
    awaited, and the failure is not reported.  The error leaves
    [pickFunction], the function prompt is not shown again, and a session
    that got there ends in [action] with the exit status 1. *)
Theorem confirmed_call_throws_before_staging
        (env : collaborators) (ctx : context) (fuel : nat)
        (c : contract) (src : source) (w : world)
        (abiItemSignature : string) (abiItem : abiItem)
        (params : list param) (raws : list string) (rest : list answer)
        (e : error) :
  selects env src w abiItemSignature abiItem params raws
          (YesNo true :: rest) ->
  isView abiItem = false ->
  transact env (mkTxPromise c (abiItemNameOf abiItemSignature)
                            (coerceInputs env params raws) (txOverrides ctx))
  = Some e ->
  exists w' evs,
    pickFunction env ctx (S fuel) c src w = (Threw e, w')
    /\ script w' = rest
    /\ history w' = (history w ++ evs)%list
    /\ evs = (PromptFunction :: inputEvents env params raws
                ++ [PromptConfirm; Log "  > Staging transaction...";
                    Send (mkTxPromise c (abiItemNameOf abiItemSignature)
                                      (coerceInputs env params raws)
                                      (txOverrides ctx))])%list
    /\ (forall ev,
           In ev evs -> isPhase ev = true ->
           ev = Send (mkTxPromise c (abiItemNameOf abiItemSignature)
                                  (coerceInputs env params raws)
                                  (txOverrides ctx)))
    /\ (forall ev, In ev evs -> isReport ev = false)
    /\ (forall w0,
           pickContract env ctx (S (S fuel)) w0
           = pickFunction env ctx (S fuel) c src w ->
           action env ctx (S (S fuel)) w0
           = (Returned tt, 1%Z,
              mkWorld rest (ConsoleStack e :: ConsoleError e :: trace w'))).
Proof.
  intros Hsel Hview Hmethod.
  rewrite (pickFunction_round _ _ _ _ _ _ _ _ _ _ _ Hsel).
  pose proof (history_afterInputs env w params raws (YesNo true :: rest))
    as Hbefore.
  rewrite callFunction_confirmed_throws with (later := rest) (e := e);
    [| exact Hview | reflexivity | exact Hmethod].
  eexists. eexists. split; [reflexivity |]. split; [reflexivity |].
  split; [| split; [reflexivity |]].
  - rewrite history_extend, Hbefore, <- app_assoc. reflexivity.
  - split; [| split].
    + intros ev [<- | Hev] Hphase; [discriminate Hphase |].
      apply in_app_or in Hev as [Hev | Hev].
      * rewrite (inputEvents_no_phase _ _ _ _ Hev) in Hphase.
        discriminate Hphase.
      * destruct Hev as [<- | [<- | [<- | []]]];
          try discriminate Hphase. reflexivity.
    + intros ev [<- | Hev]; [reflexivity |].
      apply in_app_or in Hev as [Hev | Hev].
      * exact (inputEvents_no_report _ _ _ _ Hev).
      * destruct Hev as [<- | [<- | [<- | []]]]; reflexivity.
    + intros w0 Hreached. unfold action, interactiveUi.
      rewrite Hreached. reflexivity.
Qed.

Lemma confirmed_call_throws_before_staging_witness :
  transact Sample.env
           (mkTxPromise Sample.sampleContract "burn" [VString "1"]
                        (txOverrides Sample.ctx))
  = Some (TypeError "contract[abiItemName] is not a function")
  /\ exists w',
       action Sample.env Sample.ctx 3
              (Sample.begin [Choose None 0; Choose (Some "burn") 0;
                             Typed "1"; YesNo true; Choose None 0])
       = (Returned tt, 1%Z, w')
       /\ script w' = [Choose None 0]
       /\ history w' =
          [PromptContract; Log "  > Synthetix => 0xC011"; PromptFunction;
           PromptInput "amount" "amount"; LogRawInputs "1";
           LogProcessedInputs 1 (VString "1"); PromptConfirm;
           Log "  > Staging transaction...";
           Send (mkTxPromise Sample.sampleContract "burn" [VString "1"]
                             (txOverrides Sample.ctx));
           ConsoleError (TypeError "contract[abiItemName] is not a function");
           ConsoleStack (TypeError "contract[abiItemName] is not a function")].
Proof.
  split; [reflexivity |].
  assert (Hsel : selects Sample.env Sample.sampleSource
                   (mkWorld [Choose (Some "burn") 0; Typed "1"; YesNo true;
                             Choose None 0]
                            [Log "  > Synthetix => 0xC011"; PromptContract])
                   (reduceSignature Sample.burn) Sample.burn
                   [Sample.named "amount" "uint256"] ["1"]
                   [YesNo true; Choose None 0]).
  { constructor; try reflexivity.
    - exists (Some "burn"), 0%nat. split; reflexivity.
    - discriminate.
    - split; [eexists; reflexivity | exact I]. }
  destruct (confirmed_call_throws_before_staging
              Sample.env Sample.ctx 1 Sample.sampleContract
              Sample.sampleSource _ _ _ _ _ _
              (TypeError "contract[abiItemName] is not a function")
              Hsel eq_refl eq_refl)
    as (w' & evs & _ & _ & Hhistory & Hevs & _ & _ & Hexit).
  eexists. split; [apply Hexit; reflexivity |].
  split; [reflexivity |].
  unfold history in *. cbn [trace rev]. rewrite Hhistory, Hevs.
  reflexivity.
Defined.

(** C2: a mutating call asks for a confirmation before anything else.  If
    the user declines, [pickFunction] is entered again on the same
    contract, and between the pick and that re-entry nothing happened but
    the prompts: no call of the contract method, no staging, no
    submission, no wait.  While the question is not answered nothing runs
    either; and when the user confirms, what follows comes after the
    question, whether the contract method hands back its promise or
    throws. *)
Theorem declined_confirmation_reenters
        (env : collaborators) (ctx : context) (fuel : nat)
        (c : contract) (src : source) (w : world)
        (abiItemSignature : string) (abiItem : abiItem)
        (params : list param) (raws : list string) (later : list answer) :
  selects env src w abiItemSignature abiItem params raws later ->
  isView abiItem = false ->
  (forall rest,
      later = YesNo false :: rest ->
      exists w' evs,
        pickFunction env ctx (S fuel) c src w
        = pickFunction env ctx fuel c src w'
        /\ script w' = rest
        /\ history w' = (history w ++ evs)%list
        /\ evs = (PromptFunction :: inputEvents env params raws
                    ++ [PromptConfirm])%list
        /\ forall e, In e evs -> isPhase e = false)
  /\ ((forall yes rest, later <> YesNo yes :: rest) ->
      exists w',
        pickFunction env ctx (S fuel) c src w = (Pending, w')
        /\ history w' =
           (history w ++ PromptFunction :: inputEvents env params raws
              ++ [PromptConfirm])%list)
  /\ (forall rest,
         later = YesNo true :: rest ->
         exists w' evs,
           history w' =
           (history w ++ PromptFunction :: inputEvents env params raws
              ++ PromptConfirm :: evs)%list
           /\ (transact env
                        (mkTxPromise c (abiItemNameOf abiItemSignature)
                                     (coerceInputs env params raws)
                                     (txOverrides ctx)) = None ->
               pickFunction env ctx (S fuel) c src w
               = pickFunction env ctx fuel c src w')
           /\ (forall e,
                  transact env
                           (mkTxPromise c (abiItemNameOf abiItemSignature)
                                        (coerceInputs env params raws)
                                        (txOverrides ctx)) = Some e ->
                  pickFunction env ctx (S fuel) c src w = (Threw e, w'))).
Proof.
  intros Hsel Hview. rewrite (pickFunction_round _ _ _ _ _ _ _ _ _ _ _ Hsel).
  pose proof (history_afterInputs env w params raws later) as Hbefore.
  repeat split.
  - intros rest ->.
    rewrite callFunction_declined with (later := rest);
      [| exact Hview | reflexivity].
    eexists. eexists. split; [reflexivity |]. split; [reflexivity |].
    split; [| split; [reflexivity |]].
    + unfold history in *. cbn [trace rev]. rewrite Hbefore.
      rewrite <- app_assoc. reflexivity.
    + intros e [<- | He]; [reflexivity |].
      apply in_app_or in He as [He | [<- | []]]; [| reflexivity].
      exact (inputEvents_no_phase _ _ _ _ He).
  - intros Hnone.
    rewrite callFunction_unanswered; [| exact Hview | exact Hnone].
    eexists. split; [reflexivity |].
    unfold history in *. cbn [trace rev]. rewrite Hbefore.
    rewrite <- app_assoc. reflexivity.
  - intros rest ->.
    destruct (transact env
                (mkTxPromise c (abiItemNameOf abiItemSignature)
                             (coerceInputs env params raws)
                             (txOverrides ctx))) as [e |] eqn:Hmethod.
    + rewrite callFunction_confirmed_throws with (later := rest) (e := e);
        [| exact Hview | reflexivity | exact Hmethod].
      eexists. eexists. split; [| split].
      * rewrite history_extend, Hbefore, <- app_assoc. reflexivity.
      * discriminate.
      * intros e' He'. injection He' as <-. reflexivity.
    + rewrite callFunction_confirmed with (later := rest);
        [| exact Hview | reflexivity | exact Hmethod].
      eexists. eexists. split; [| split].
      * rewrite history_extend, Hbefore, <- app_assoc. reflexivity.
      * reflexivity.
      * discriminate.
Qed.

Lemma declined_confirmation_reenters_witness :
  exists w',
    pickFunction Sample.env Sample.ctx 2 Sample.sampleContract
                 Sample.sampleSource
                 (Sample.begin [Choose (Some "burn") 0; Typed "1";
                                YesNo false; Choose None 0])
    = pickFunction Sample.env Sample.ctx 1 Sample.sampleContract
                   Sample.sampleSource w'
    /\ script w' = [Choose None 0]
    /\ history w' =
       [PromptFunction; PromptInput "amount" "amount"; LogRawInputs "1";
        LogProcessedInputs 1 (VString "1"); PromptConfirm].
Proof.
  assert (Hsel : selects Sample.env Sample.sampleSource
                   (Sample.begin [Choose (Some "burn") 0; Typed "1";
                                  YesNo false; Choose None 0])
                   (reduceSignature Sample.burn) Sample.burn
                   [Sample.named "amount" "uint256"] ["1"]
                   [YesNo false; Choose None 0]).
  { constructor; try reflexivity.
    - exists (Some "burn"), 0%nat. split; reflexivity.
    - discriminate.
    - split; [eexists; reflexivity | exact I]. }
  destruct (proj1 (declined_confirmation_reenters
                     Sample.env Sample.ctx 1 Sample.sampleContract
                     Sample.sampleSource _ _ _ _ _ _ Hsel eq_refl)
                  [Choose None 0] eq_refl)
    as (w' & evs & Hrun & Hscript & Hhistory & Hevs & _).
  exists w'. split; [exact Hrun |]. split; [exact Hscript |].
  rewrite Hhistory, Hevs. reflexivity.
Defined.

(** C9: when a view call returns a value and the ABI entry declares an
    empty list of outputs, the report reads the first element of that
    list, which is not there, and faults on it: nothing is printed after
    the receipt line, and [pickFunction] is not entered again. *)
Theorem view_without_outputs_faults
        (env : collaborators) (ctx : context) (next : M unit)
        (c : contract) (fn : string) (abiItem : abiItem)
        (inputs : list value) (result : value) (w : world) :
  isView abiItem = true ->
  item_outputs abiItem = Some [] ->
  call env c fn inputs = Fulfilled result ->
  is_undefined result = false ->
  printOutputs env abiItem result w
  = (Threw (TypeError "Cannot read property 'name' of undefined"), w)
  /\ exists w',
       callFunction env ctx next c fn abiItem inputs w
       = (Threw (TypeError "Cannot read property 'name' of undefined"), w')
       /\ script w' = script w
       /\ history w' =
          (history w ++
             [Log "  > Querying..."; Query c fn inputs;
              Log "  > Transaction sent..."; LogReceipt result c])%list.
Proof.
  intros Hview Houtputs Hcall Hdefined.
  split; [apply printOutputs_empty; exact Houtputs |].
  rewrite (callFunction_view_no_outputs _ _ _ _ _ _ _ _ _
             Hview Hcall Houtputs Hdefined).
  eexists. split; [reflexivity |]. split; [reflexivity |].
  apply history_extend.
Qed.

Lemma view_without_outputs_faults_witness :
  exists w',
    callFunction Sample.env Sample.ctx (ret tt) Sample.sampleContract
                 "ping" Sample.ping [] (Sample.begin [])
    = (Threw (TypeError "Cannot read property 'name' of undefined"), w')
    /\ history w' =
       [Log "  > Querying..."; Query Sample.sampleContract "ping" [];
        Log "  > Transaction sent...";
        LogReceipt (VArray []) Sample.sampleContract].
Proof.
  destruct (view_without_outputs_faults
              Sample.env Sample.ctx (ret tt) Sample.sampleContract
              "ping" Sample.ping [] (VArray []) (Sample.begin [])
              eq_refl eq_refl eq_refl eq_refl)
    as (_ & w' & Hrun & _ & Hhistory).
  exists w'. split; [exact Hrun | exact Hhistory].
Defined.

(** C10: the ABI entry that [pickFunction] prompts for and calls is the
    first entry of the whole ABI whose name is the text before the first
    "(" of the signature picked.  With several entries of one name, that
    entry can be another one than the entry whose signature was shown and
    picked: picking the two-parameter overload of the sample leads to the
    prompt of the one-parameter overload, and an event listed ahead of a
    function of its name is taken in its place. *)
Theorem selected_entry_is_first_of_name :
  (forall before after,
      JS.free_of "(" before = true ->
      abiItemNameOf (before ++ "(" ++ after) = before)
  /\ (forall item n,
         item_name item = Some n -> JS.free_of "(" n = true ->
         abiItemNameOf (reduceSignature item) = n)
  /\ (forall abi abiItemSignature used,
         findAbiItem abi (abiItemNameOf abiItemSignature) = Some used <->
         exists pre post,
           abi = (pre ++ used :: post)%list
           /\ item_name used = Some (abiItemNameOf abiItemSignature)
           /\ forall other,
               In other pre ->
               item_name other <> Some (abiItemNameOf abiItemSignature))
  /\ (forall env ctx pickContract pickFunction c src w query position later
             abiItemSignature abiItem params,
         script w = Choose query position :: later ->
         nth_error (searchAbi (abi src) query) position
         = Some abiItemSignature ->
         abiItemSignature <> escItem ->
         findAbiItem (abi src) (abiItemNameOf abiItemSignature)
         = Some abiItem ->
         item_inputs abiItem = Some params ->
         pickFunction_body env ctx pickContract pickFunction c src w =
         (inputs <- promptInputs env params ;;
          callFunction env ctx pickFunction c
                       (abiItemNameOf abiItemSignature) abiItem inputs)
           (mkWorld later (PromptFunction :: trace w)))
  /\ (nth_error (searchAbi Sample.sampleAbi (Some "burn")) 1
      = Some (reduceSignature Sample.burnFor)
      /\ findAbiItem Sample.sampleAbi
                     (abiItemNameOf (reduceSignature Sample.burnFor))
         = Some Sample.burn
      /\ Sample.burn <> Sample.burnFor
      /\ exists w',
           pickFunction Sample.env Sample.ctx 1 Sample.sampleContract
                        Sample.sampleSource
                        (Sample.begin [Choose (Some "burn") 1])
           = (Pending, w')
           /\ history w' = [PromptFunction; PromptInput "amount" "amount"])
  /\ (exists abi chosen used,
         In (reduceSignature chosen) (searchAbi abi (Some "Burned"))
         /\ item_type chosen = "function"
         /\ findAbiItem abi (abiItemNameOf (reduceSignature chosen))
            = Some used
         /\ item_type used = "event").
Proof.
  split; [| split; [| split; [| split; [| split]]]].
  - intros before after Hfree. apply split_first. exact Hfree.
  - apply abiItemNameOf_reduceSignature.
  - intros abi abiItemSignature used. apply findAbiItem_spec.
  - intros. eapply pickFunction_body_selected; eassumption.
  - split; [reflexivity |]. split; [reflexivity |].
    split; [discriminate |].
    exists (mkWorld [] [PromptInput "amount" "amount"; PromptFunction]).
    split; vm_compute; reflexivity.
  - exists [Sample.Burned;
            mkAbiItem (Some "Burned") "function" (Some []) (Some [])
                      (Some "view")],
           (mkAbiItem (Some "Burned") "function" (Some []) (Some [])
                      (Some "view")),
           Sample.Burned.
    split; [left; reflexivity |]. repeat split.
Qed.

Lemma selected_entry_is_first_of_name_witness :
  abiItemNameOf "burn(address from, uint256 amount)" = "burn"
  /\ abiItemNameOf (reduceSignature Sample.burnFor) = "burn".
Proof.
  destruct selected_entry_is_first_of_name as (Hbefore & Hname & _).
  split.
  - apply (Hbefore "burn" "address from, uint256 amount)"). reflexivity.
  - apply (Hname Sample.burnFor "burn"); reflexivity.
Defined.

(* ===================================================================== *)
(** ** The loop and its end *)
(* ===================================================================== *)

(** A confirmed transaction ends with the report of its outcome. *)
Lemma transactionEvents_reported env c p :
  (exists e, last (transactionEvents env c p) (Log EmptyString) = LogError e)
  \/ (exists mined,
         last (transactionEvents env c p) (Log EmptyString)
         = LogReceipt (VReceipt mined) c).
Proof.
  unfold transactionEvents.
  destruct (stage env p) as [tx | e]; [| left; exists e; reflexivity].
  destruct (submit env tx) as [e |]; [left; exists e; reflexivity |].
  destruct (receipt env tx) as [mined | e];
    [right; exists mined | left; exists e]; reflexivity.
Qed.

(** A contract name that the registry does not resolve makes
    [pickContract] throw. *)
Lemma pickContract_unresolved env ctx fuel w query position later
      contractName :
  script w = Choose query position :: later ->
  nth_error (searchTargets
               (prioritizeTarget mainContract (deploymentTargets ctx)) query)
            position = Some contractName ->
  getTarget env contractName = None ->
  pickContract env ctx (S fuel) w =
  (Threw (TypeError "Cannot read property 'source' of undefined"),
   mkWorld later (PromptContract :: trace w)).
Proof.
  intros Hscript Hnth Htarget. cbn [pickContract].
  unfold pickContract_body, bind, promptList.
  rewrite Hscript, Hnth, Htarget. reflexivity.
Qed.

(** [process.exitCode] becomes 1 exactly when [interactiveUi] throws. *)
Lemma action_exit_code env ctx fuel w :
  snd (fst (action env ctx fuel w)) = 1%Z <->
  exists e, fst (interactiveUi env ctx fuel w) = Threw e.
Proof.
  unfold action.
  destruct (interactiveUi env ctx fuel w) as [[[] | e | |] w']; simpl;
    split; try discriminate; try (intros [e' H]; discriminate).
  - intros _. exists e. reflexivity.
  - reflexivity.
Qed.

(** C3, as the driver has it: every outcome of a call is reported and
    [pickFunction] is entered again on the same contract, be it a rejected
    view call, a view call that returns for a function with an output, or
    a confirmed transaction whose contract method has handed back its
    promise and that fails at the staging, at the submission or at the
    receipt, or that is mined.  None of these failures ends the session.
    A contract name that the registry cannot resolve is not among them:
    it throws out of [pickContract].  The session never returns by
    itself; it ends only when an error reaches [action], which sets the
    exit status to 1. *)
Theorem call_outcomes_reenter
        (env : collaborators) (ctx : context) (fuel : nat)
        (c : contract) (src : source) (w : world)
        (abiItemSignature : string) (abiItem : abiItem)
        (params : list param) (raws : list string) (later : list answer) :
  selects env src w abiItemSignature abiItem params raws later ->
  (isView abiItem = true ->
   forall err,
     call env c (abiItemNameOf abiItemSignature) (coerceInputs env params raws)
     = RejectedWith err ->
     exists w',
       pickFunction env ctx (S fuel) c src w
       = pickFunction env ctx fuel c src w'
       /\ script w' = later
       /\ history w' =
          (history w ++ PromptFunction :: inputEvents env params raws
             ++ [Log "  > Querying...";
                 Query c (abiItemNameOf abiItemSignature)
                       (coerceInputs env params raws);
                 Log "  > Transaction sent..."; LogError err])%list)
  /\ (isView abiItem = true ->
      forall result outputs,
        call env c (abiItemNameOf abiItemSignature)
             (coerceInputs env params raws)
        = Fulfilled result ->
        item_outputs abiItem = Some outputs ->
        outputs <> [] ->
        exists w',
          pickFunction env ctx (S fuel) c src w
          = pickFunction env ctx fuel c src w'
          /\ script w' = later
          /\ history w' =
             (history w ++ PromptFunction :: inputEvents env params raws
                ++ [Log "  > Querying...";
                    Query c (abiItemNameOf abiItemSignature)
                          (coerceInputs env params raws);
                    Log "  > Transaction sent..."; LogReceipt result c]
                ++ (if is_undefined result then []
                    else printedEvents env outputs result))%list)
  /\ (isView abiItem = false ->
      forall rest,
        later = YesNo true :: rest ->
        transact env (mkTxPromise c (abiItemNameOf abiItemSignature)
                                  (coerceInputs env params raws)
                                  (txOverrides ctx)) = None ->
        exists w' evs,
          pickFunction env ctx (S fuel) c src w
          = pickFunction env ctx fuel c src w'
          /\ script w' = rest
          /\ history w' =
             (history w ++ PromptFunction :: inputEvents env params raws
                ++ PromptConfirm :: evs)%list
          /\ evs = transactionEvents env c
                     (mkTxPromise c (abiItemNameOf abiItemSignature)
                                  (coerceInputs env params raws)
                                  (txOverrides ctx))
          /\ ((exists e, last evs (Log EmptyString) = LogError e)
              \/ (exists mined,
                     last evs (Log EmptyString)
                     = LogReceipt (VReceipt mined) c)))
  /\ (forall w0 query position rest contractName,
         script w0 = Choose query position :: rest ->
         nth_error (searchTargets
                      (prioritizeTarget mainContract (deploymentTargets ctx))
                      query) position = Some contractName ->
         getTarget env contractName = None ->
         action env ctx (S fuel) w0 =
         (Returned tt, 1%Z,
          mkWorld rest
                  (ConsoleStack
                     (TypeError "Cannot read property 'source' of undefined")
                   :: ConsoleError
                        (TypeError
                           "Cannot read property 'source' of undefined")
                   :: PromptContract :: trace w0)))
  /\ (forall budget w0,
         snd (fst (action env ctx budget w0)) = 1%Z <->
         exists e, fst (interactiveUi env ctx budget w0) = Threw e)
  /\ (forall budget w0,
         length (script w0) <= budget ->
         open_ended (fst (interactiveUi env ctx (S budget) w0))).
Proof.
  intros Hsel. rewrite (pickFunction_round _ _ _ _ _ _ _ _ _ _ _ Hsel).
  pose proof (history_afterInputs env w params raws later) as Hbefore.
  split; [| split; [| split; [| split; [| split]]]].
  - intros Hview err Hcall.
    rewrite (callFunction_view_rejected _ _ _ _ _ _ _ _ _ Hview Hcall).
    eexists. split; [reflexivity |]. split; [reflexivity |].
    rewrite history_extend.
    rewrite Hbefore, <- app_assoc. reflexivity.
  - intros Hview result outputs Hcall Houtputs Hsome.
    rewrite (callFunction_view_returned _ _ _ _ _ _ _ _ _ _
               Hview Hcall Houtputs (or_intror Hsome)).
    eexists. split; [reflexivity |]. split; [reflexivity |].
    rewrite history_extend, Hbefore, <- app_assoc. reflexivity.
  - intros Hview rest -> Hmethod.
    rewrite callFunction_confirmed with (later := rest);
      [| exact Hview | reflexivity | exact Hmethod].
    eexists. eexists. split; [reflexivity |]. split; [reflexivity |].
    split; [| split; [reflexivity | apply transactionEvents_reported]].
    rewrite history_extend, Hbefore, <- app_assoc. reflexivity.
  - intros w0 query position rest contractName Hscript Hnth Htarget.
    unfold action, interactiveUi.
    rewrite (pickContract_unresolved _ _ _ _ _ _ _ _ Hscript Hnth Htarget).
    reflexivity.
  - intros budget w0. apply action_exit_code.
  - intros budget w0 Hbudget. unfold interactiveUi.
    apply (proj1 (picks_open_ended env ctx budget)). exact Hbudget.
Qed.

Lemma call_outcomes_reenter_witness :
  exists w',
    pickFunction Sample.envReverting Sample.ctx 2 Sample.sampleContract
                 Sample.sampleSource
                 (Sample.begin [Choose (Some "setKeys") 0; Typed "a,b";
                                YesNo true; Choose None 0])
    = pickFunction Sample.envReverting Sample.ctx 1 Sample.sampleContract
                   Sample.sampleSource w'
    /\ script w' = [Choose None 0]
    /\ history w' =
       [PromptFunction;
        PromptInput "keys (uses toBytes32 - if array, use a,b,c syntax)"
                    "keys";
        LogRawInputs "a,b";
        LogProcessedInputs 2 (VArray [VString (Sample.bytes32OfText "a");
                                      VString (Sample.bytes32OfText "b")]);
        PromptConfirm;
        Log "  > Staging transaction...";
        Send (mkTxPromise Sample.sampleContract "setKeys"
                          [VArray [VString (Sample.bytes32OfText "a");
                                   VString (Sample.bytes32OfText "b")]]
                          (txOverrides Sample.ctx));
        StageTx (mkTxPromise Sample.sampleContract "setKeys"
                             [VArray [VString (Sample.bytes32OfText "a");
                                      VString (Sample.bytes32OfText "b")]]
                             (txOverrides Sample.ctx));
        Log "  > Sending transaction... 0xbeef"; SubmitTx "0xbeef";
        AwaitReceipt "0xbeef"; Log "  > Transaction sent...";
        LogError (Rejected "transaction failed")].
Proof.
  assert (Hsel : selects Sample.envReverting Sample.sampleSource
                   (Sample.begin [Choose (Some "setKeys") 0; Typed "a,b";
                                  YesNo true; Choose None 0])
                   (reduceSignature Sample.setKeys) Sample.setKeys
                   [Sample.named "keys" "bytes32[]"] ["a,b"]
                   [YesNo true; Choose None 0]).
  { constructor; try reflexivity.
    - exists (Some "setKeys"), 0%nat. split; reflexivity.
    - discriminate.
    - split; [eexists; reflexivity | exact I]. }
  destruct (call_outcomes_reenter
              Sample.envReverting Sample.ctx 1 Sample.sampleContract
              Sample.sampleSource _ _ _ _ _ _ Hsel)
    as (_ & _ & Hsend & _).
  destruct (Hsend eq_refl [Choose None 0] eq_refl eq_refl)
    as (w' & evs & Hrun & Hscript & Hhistory & Hevs & _).
  exists w'. split; [exact Hrun |]. split; [exact Hscript |].
  rewrite Hhistory, Hevs. reflexivity.
Defined.

(** C3 does not hold for a resolution failure.  A deployment without the
    main contract still offers "Synthetix" first; the registry cannot
    resolve it, the error reaches [action], the exit status is 1 and the
    function prompt is never shown, although the user had more to say:
    this failure ends the session. *)
Lemma resolution_failure_ends_session :
  nth_error (searchTargets
               (prioritizeTarget mainContract
                                 (deploymentTargets Sample.ctxWithoutMain))
               None) 0 = Some "Synthetix"
  /\ getTarget Sample.envWithoutMain "Synthetix" = None
  /\ exists w',
       action Sample.envWithoutMain Sample.ctxWithoutMain 3
              (Sample.begin [Choose None 0; Choose None 1])
       = (Returned tt, 1%Z, w')
       /\ script w' = [Choose None 1]
       /\ history w' =
          [PromptContract;
           ConsoleError
             (TypeError "Cannot read property 'source' of undefined");
           ConsoleStack
             (TypeError "Cannot read property 'source' of undefined")]
       /\ ~ In PromptFunction (history w').
Proof.
  split; [reflexivity |]. split; [reflexivity |].
  eexists. split; [vm_compute; reflexivity |].
  split; [reflexivity |]. split; [reflexivity |].
  simpl. intros [H | [H | [H | []]]]; discriminate H.
Qed.

(* ===================================================================== *)
(** ** Text replacement *)
(* ===================================================================== *)

Lemma takeText_app pre s : takeText (String.length pre) (pre ++ s) = pre.
Proof.
  induction pre as [|c pre IH]; simpl; [destruct s | rewrite IH]; reflexivity.
Qed.

Lemma dropText_app pre s : dropText (String.length pre) (pre ++ s) = s.
Proof. induction pre as [|c pre IH]; simpl; [destruct s |]; auto. Qed.

Lemma dropText_add a : forall b s,
  dropText (a + b) s = dropText b (dropText a s).
Proof.
  induction a as [|a IH]; intros b s; simpl.
  - destruct s; reflexivity.
  - destruct s as [|c s]; [destruct b; reflexivity | apply IH].
Qed.

Lemma takeText_prefix n : forall s,
  exists rest, s = takeText n s ++ rest /\ String.length (takeText n s) <= n.
Proof.
  induction n as [|n IH]; intros s.
  - exists s. destruct s; simpl; split; auto.
  - destruct s as [|c s]; simpl.
    + exists EmptyString. split; [reflexivity | lia].
    + destruct (IH s) as (rest & Hs & Hlen). exists rest.
      split; [congruence | lia].
Qed.

Lemma takeText_all n : forall s,
  String.length s <= n -> takeText n s = s.
Proof.
  induction n as [|n IH]; intros [|c s] H; simpl in *;
    try reflexivity; try lia.
  rewrite IH by lia. reflexivity.
Qed.

Lemma indexOfText_unfold s pattern :
  indexOfText s pattern =
  if JS.startsWith s pattern then Some 0
  else match s with
       | EmptyString => None
       | String _ s' => option_map S (indexOfText s' pattern)
       end.
Proof. destruct s; reflexivity. Qed.

(** No offset is found exactly when the pattern does not occur. *)
Lemma indexOfText_none pattern : forall s,
  indexOfText s pattern = None <-> JS.includes s pattern = false.
Proof.
  induction s as [|c s IH]; rewrite indexOfText_unfold, includes_unfold;
    destruct (JS.startsWith _ pattern); simpl;
      try (split; [discriminate | discriminate]); try tauto.
  rewrite <- IH. destruct (indexOfText s pattern); simpl;
    split; congruence.
Qed.

(** The offset found is that of the first occurrence. *)
Lemma indexOfText_first pattern post : forall pre,
  (forall pre' post',
      pre ++ pattern ++ post = pre' ++ pattern ++ post' ->
      String.length pre <= String.length pre') ->
  indexOfText (pre ++ pattern ++ post) pattern = Some (String.length pre).
Proof.
  induction pre as [|c pre IH]; intros Hfirst.
  - rewrite indexOfText_unfold.
    replace (JS.startsWith (EmptyString ++ pattern ++ post) pattern)
      with true; [reflexivity |].
    symmetry. apply startsWith_spec. exists post. reflexivity.
  - change (String c pre ++ pattern ++ post)
      with (String c (pre ++ pattern ++ post)) in *.
    rewrite indexOfText_unfold.
    destruct (JS.startsWith _ pattern) eqn:Hstart.
    + apply startsWith_spec in Hstart as [post' Hstart].
      specialize (Hfirst EmptyString post' Hstart). simpl in Hfirst. lia.
    + rewrite IH; [reflexivity |].
      intros pre' post' Heq.
      specialize (Hfirst (String c pre') post'). simpl in Hfirst.
      rewrite Heq in Hfirst. specialize (Hfirst eq_refl). lia.
Qed.

(** A replacement text without a dollar stands for itself. *)
Lemma getSubstitution_plain matched before after replacement :
  JS.free_of "$" replacement = true ->
  getSubstitution matched before after replacement = replacement.
Proof.
  induction replacement as [|c tail IH]; simpl; intros H; [reflexivity |].
  apply andb_true_iff in H as [Hc H]. apply negb_true_iff in Hc.
  rewrite Hc, (IH H). reflexivity.
Qed.

Lemma replaceText_absent s pattern replacement :
  JS.includes s pattern = false -> replaceText s pattern replacement = s.
Proof.
  intros H. unfold replaceText.
  rewrite (proj2 (indexOfText_none pattern s) H). reflexivity.
Qed.

Lemma replaceText_first pre pattern post replacement :
  (forall pre' post',
      pre ++ pattern ++ post = pre' ++ pattern ++ post' ->
      String.length pre <= String.length pre') ->
  JS.free_of "$" replacement = true ->
  replaceText (pre ++ pattern ++ post) pattern replacement =
  pre ++ replacement ++ post.
Proof.
  intros Hfirst Hplain. unfold replaceText.
  rewrite (indexOfText_first _ _ _ Hfirst), takeText_app, dropText_add.
  rewrite dropText_app, dropText_app, getSubstitution_plain by exact Hplain.
  reflexivity.
Qed.

(* ===================================================================== *)
(** ** The set-up of a session *)
(* ===================================================================== *)

(** X1: on a fork the provider is always the local node, whatever the
    option and the environment say.  The owner's address is handed over as
    public key exactly when no private key came with the options, and the
    private key of the environment is then still taken: the provider
    set-up receives both keys. *)
Theorem setUp_on_fork (h : host) (opts : options) (env : processEnv) :
  opt_useFork opts = true ->
  providerUrl (setUp h opts env) = Some forkUrl
  /\ (publicKey (setUp h opts env) = Some (ownerAddress h) <->
      JS.truthy (opt_privateKey opts) = false)
  /\ (JS.truthy (opt_privateKey opts) = true ->
      privateKey (setUp h opts env) = opt_privateKey opts
      /\ publicKey (setUp h opts env) = None)
  /\ (JS.truthy (opt_privateKey opts) = false ->
      JS.truthy (PRIVATE_KEY env) = true ->
      privateKey (setUp h opts env) = PRIVATE_KEY env
      /\ publicKey (setUp h opts env) = Some (ownerAddress h)).
Proof.
  intros Hfork. unfold setUp. rewrite Hfork.
  cbn [providerUrl publicKey privateKey].
  change (JS.truthy (Some forkUrl)) with true. cbn [negb andb].
  split; [reflexivity |].
  destruct (JS.truthy (opt_privateKey opts)); cbn [negb andb].
  - split; [split; discriminate |]. split; [auto | discriminate].
  - split; [split; reflexivity |]. split; [discriminate |].
    intros _ Henv. rewrite Henv. split; reflexivity.
Qed.

Lemma setUp_on_fork_witness :
  providerUrl (setUp SampleSetup.machine SampleSetup.forked SampleSetup.infura)
  = Some "http://localhost:8545"
  /\ privateKey (setUp SampleSetup.machine SampleSetup.forked
                       SampleSetup.infura) = Some "0xkey"
  /\ publicKey (setUp SampleSetup.machine SampleSetup.forked
                      SampleSetup.infura)
     = Some (ownerAddress SampleSetup.machine).
Proof.
  destruct (setUp_on_fork SampleSetup.machine SampleSetup.forked
                          SampleSetup.infura eq_refl)
    as (Hurl & _ & _ & Hboth).
  split; [exact Hurl |]. exact (Hboth eq_refl eq_refl).
Defined.

(** X2: without a fork and without a provider option, the provider of the
    environment is used.  When it mentions "infura", the first occurrence
    of "network" in it is replaced by the name of the network (a name
    without a dollar); a provider that does not mention "infura", or that
    does not contain "network", is used as it is.  A provider given as
    an option is never replaced. *)
Theorem setUp_provider_of_environment
        (h : host) (opts : options) (env : processEnv) (url : string) :
  opt_useFork opts = false ->
  PROVIDER_URL env = Some url ->
  (JS.truthy (opt_providerUrl opts) = true ->
   providerUrl (setUp h opts env) = opt_providerUrl opts)
  /\ (JS.truthy (opt_providerUrl opts) = false ->
      JS.includes url "infura" = false \/ JS.includes url "network" = false ->
      url <> EmptyString ->
      providerUrl (setUp h opts env) = Some url)
  /\ (JS.truthy (opt_providerUrl opts) = false ->
      JS.includes url "infura" = true ->
      forall pre post,
        url = pre ++ "network" ++ post ->
        (forall pre' post',
            pre ++ "network" ++ post = pre' ++ "network" ++ post' ->
            String.length pre <= String.length pre') ->
        JS.free_of "$" (opt_network opts) = true ->
        providerUrl (setUp h opts env)
        = Some (pre ++ opt_network opts ++ post)).
Proof.
  intros Hfork Henv. unfold setUp. rewrite Hfork, Henv.
  cbn [providerUrl JS.template].
  split; [| split].
  - intros Hopt. rewrite Hopt. reflexivity.
  - intros Hopt Hplain Hurl. rewrite Hopt.
    replace (JS.truthy (Some url)) with true
      by (destruct url; [contradiction | reflexivity]).
    cbn [negb andb]. destruct Hplain as [Hinfura | Hnone].
    + rewrite Hinfura. reflexivity.
    + rewrite (replaceText_absent _ _ _ Hnone).
      destruct (JS.includes url "infura"); reflexivity.
  - intros Hopt Hinfura pre post -> Hfirst Hplain. rewrite Hopt, Hinfura.
    replace (JS.truthy (Some (pre ++ "network" ++ post))) with true
      by (destruct pre; reflexivity).
    cbn [negb andb]. rewrite (replaceText_first _ _ _ _ Hfirst Hplain).
    reflexivity.
Qed.

Lemma setUp_provider_of_environment_witness :
  providerUrl (setUp SampleSetup.machine SampleSetup.plain SampleSetup.infura)
  = Some "https://kovan.infura.io/v3/project"
  /\ providerUrl (setUp SampleSetup.machine SampleSetup.plain
                        SampleSetup.ownNode)
     = Some "http://network-node.local:8545".
Proof.
  split.
  - destruct (setUp_provider_of_environment
                SampleSetup.machine SampleSetup.plain SampleSetup.infura
                "https://network.infura.io/v3/project" eq_refl eq_refl)
      as (_ & _ & Hinfura).
    apply (Hinfura eq_refl eq_refl "https://" ".infura.io/v3/project" eq_refl);
      [| reflexivity].
    intros pre' post' Heq.
    do 8 (destruct pre' as [|? pre']; [discriminate Heq |]).
    simpl. lia.
  - destruct (setUp_provider_of_environment
                SampleSetup.machine SampleSetup.plain SampleSetup.ownNode
                "http://network-node.local:8545" eq_refl eq_refl)
      as (_ & Hplain & _).
    apply Hplain; [reflexivity | left; reflexivity | discriminate].
Defined.

(** X3: the [status] command and the interactive command read the same
    provider from the environment as long as the URL mentions "infura" or
    does not contain "network".  For a URL that contains "network" without
    mentioning "infura", [status] replaces the first "network" by the name
    of the network while the interactive command keeps the URL as it is. *)
Theorem status_and_interactive_providers
        (h : host) (opts : options) (env : processEnv) :
  opt_useFork opts = false ->
  ((forall url,
       PROVIDER_URL env = Some url ->
       JS.includes url "infura" = true \/ JS.includes url "network" = false) ->
   statusProviderUrl (opt_network opts) (opt_providerUrl opts) env
   = providerUrl (setUp h opts env))
  /\ (forall pre post,
         PROVIDER_URL env = Some (pre ++ "network" ++ post) ->
         JS.includes (pre ++ "network" ++ post) "infura" = false ->
         JS.truthy (opt_providerUrl opts) = false ->
         (forall pre' post',
             pre ++ "network" ++ post = pre' ++ "network" ++ post' ->
             String.length pre <= String.length pre') ->
         JS.free_of "$" (opt_network opts) = true ->
         statusProviderUrl (opt_network opts) (opt_providerUrl opts) env
         = Some (pre ++ opt_network opts ++ post)
         /\ providerUrl (setUp h opts env)
            = Some (pre ++ "network" ++ post)).
Proof.
  intros Hfork. unfold statusProviderUrl, setUp. rewrite Hfork.
  cbn [providerUrl]. split.
  - intros Hurl. destruct (JS.truthy (opt_providerUrl opts)); [reflexivity |].
    cbn [negb andb]. destruct (PROVIDER_URL env) as [url |]; [| reflexivity].
    destruct (JS.truthy (Some url)); [| reflexivity].
    cbn [JS.template]. destruct (Hurl url eq_refl) as [Hinfura | Hnone].
    + rewrite Hinfura. reflexivity.
    + rewrite (replaceText_absent _ _ _ Hnone).
      destruct (JS.includes url "infura"); reflexivity.
  - intros pre post Henv Hinfura Hopt Hfirst Hplain.
    rewrite Henv, Hopt. cbn [JS.template negb andb].
    replace (JS.truthy (Some (pre ++ "network" ++ post))) with true
      by (destruct pre; reflexivity).
    rewrite Hinfura, (replaceText_first _ _ _ _ Hfirst Hplain).
    split; reflexivity.
Qed.

Lemma status_and_interactive_providers_witness :
  statusProviderUrl "kovan" None SampleSetup.ownNode
  = Some "http://kovan-node.local:8545"
  /\ providerUrl (setUp SampleSetup.machine SampleSetup.plain
                        SampleSetup.ownNode)
     = Some "http://network-node.local:8545".
Proof.
  destruct (status_and_interactive_providers
              SampleSetup.machine SampleSetup.plain SampleSetup.ownNode
              eq_refl) as [_ Hdiffer].
  apply (Hdiffer "http://" "-node.local:8545"); try reflexivity.
  intros pre' post' Heq.
  do 7 (destruct pre' as [|? pre']; [discriminate Heq |]).
  simpl. lia.
Defined.

(** X4: the provider line of the banner shows at most the first 25
    characters of the provider URL, always followed by three dots, also
    when the URL is shorter; without a URL it names the default provider
    of ethers. *)
Theorem providerLine_shows_a_prefix (url : string) :
  url <> EmptyString ->
  exists shown rest,
    providerLine (Some url) = "> Provider: " ++ shown ++ "..."
    /\ url = shown ++ rest
    /\ String.length shown <= 25
    /\ (String.length url <= 25 -> shown = url).
Proof.
  intros Hurl. destruct (takeText_prefix 25 url) as (rest & Hsplit & Hlen).
  exists (takeText 25 url), rest. split; [| split; [exact Hsplit |]].
  - unfold providerLine. destruct url; [contradiction | reflexivity].
  - split; [exact Hlen |]. apply takeText_all.
Qed.

Lemma providerLine_shows_a_prefix_witness :
  exists shown rest,
    providerLine (Some "https://kovan.infura.io/v3/project")
    = "> Provider: " ++ shown ++ "..."
    /\ "https://kovan.infura.io/v3/project" = shown ++ rest
    /\ String.length shown <= 25.
Proof.
  assert (Hurl : "https://kovan.infura.io/v3/project" <> EmptyString)
    by discriminate.
  destruct (providerLine_shows_a_prefix _ Hurl)
    as (shown & rest & Hline & Hsplit & Hlen & _).
  exists shown, rest. auto.
Defined.

(* ===================================================================== *)
(** ** The edit distance *)
(* ===================================================================== *)

Section EditDistance.

Import Levenshtein.

Lemma editDistance_nil_r a : editDistance a [] = length a.
Proof. destruct a; reflexivity. Qed.

Lemma editDistance_cons x a y b :
  editDistance (x :: a) (y :: b) =
  Nat.min (Nat.min (editDistance a (y :: b) + 1)
                   (editDistance (x :: a) b + 1))
          (editDistance a b + if Ascii.eqb x y then 0 else 1).
Proof. reflexivity. Qed.

Lemma rowCells_first_row more : forall b,
  rowCells [] b more = seq (S (length b)) (length more).
Proof.
  induction more as [|d more IH]; intros b; simpl; [reflexivity |].
  rewrite IH. reflexivity.
Qed.

(** Filling a row from the row above gives the cells of the longer text. *)
Lemma fill_row_cells c a more : forall b,
  fill_row c more (rowCells a b more)
           (editDistance a b) (editDistance (c :: a) b)
  = rowCells (c :: a) b more.
Proof.
  induction more as [|d more IH]; intros b; [reflexivity |].
  cbn [rowCells fill_row]. rewrite <- editDistance_cons, IH. reflexivity.
Qed.

Lemma next_row_cells b a c :
  next_row b (editDistance a [] :: rowCells a [] b) c
  = editDistance (c :: a) [] :: rowCells (c :: a) [] b.
Proof.
  unfold next_row. rewrite !editDistance_nil_r.
  rewrite <- (editDistance_nil_r a) at 2.
  change (S (length a)) with (editDistance (c :: a) []) at 2.
  rewrite fill_row_cells. reflexivity.
Qed.

Lemma fold_rows b l : forall a,
  fold_left (next_row b) l (editDistance a [] :: rowCells a [] b)
  = editDistance (rev l ++ a) [] :: rowCells (rev l ++ a)%list [] b.
Proof.
  induction l as [|c l IH]; intros a; [reflexivity |].
  cbn [fold_left]. rewrite next_row_cells, IH.
  simpl rev. rewrite <- app_assoc. reflexivity.
Qed.

Lemma last_cons {A} (x : A) l d : last (x :: l) d = last l x.
Proof.
  revert x d. induction l as [|y l IH]; intros x d; [reflexivity |].
  change (last (x :: y :: l) d) with (last (y :: l) d).
  rewrite (IH y d). symmetry. apply (IH y x).
Qed.

Lemma last_rowCells a more : forall b,
  last (rowCells a b more) (editDistance a b)
  = editDistance a (rev more ++ b)%list.
Proof.
  induction more as [|d more IH]; intros b; [reflexivity |].
  cbn [rowCells]. simpl rev. rewrite <- app_assoc. simpl app.
  rewrite last_cons. apply IH.
Qed.

(** The row-by-row computation follows the recurrence, the two texts read
    from their last character. *)
Lemma distance_recurrence a b :
  distance a b =
  editDistance (rev (list_ascii_of_string a)) (rev (list_ascii_of_string b)).
Proof.
  unfold distance.
  change (seq 0 (S (length (list_ascii_of_string b))))
    with (editDistance [] []
          :: seq (S (@length ascii [])) (length (list_ascii_of_string b))).
  rewrite <- (rowCells_first_row (list_ascii_of_string b) []).
  rewrite fold_rows, app_nil_r, last_cons, last_rowCells, app_nil_r.
  reflexivity.
Qed.

Lemma editDistance_same a : editDistance a a = 0.
Proof.
  induction a as [|x a IH]; [reflexivity |].
  rewrite editDistance_cons, IH, Ascii.eqb_refl. apply Nat.min_0_r.
Qed.

Lemma editDistance_zero a : forall b, editDistance a b = 0 -> a = b.
Proof.
  induction a as [|x a IH]; intros b H.
  - destruct b; [reflexivity | discriminate].
  - destruct b as [|y b]; [discriminate |].
    rewrite editDistance_cons in H.
    destruct (Ascii.eqb_spec x y) as [-> | Hxy].
    + f_equal. apply IH. lia.
    + lia.
Qed.

(** The distance is zero between a text and itself, and only then. *)
Lemma levenshtein_zero a b : levenshtein a b = 0%Z <-> a = b.
Proof.
  unfold levenshtein. rewrite distance_recurrence. split.
  - intros H. assert (H0 : editDistance (rev (list_ascii_of_string a))
                                        (rev (list_ascii_of_string b)) = 0)
      by lia.
    apply editDistance_zero in H0.
    apply (f_equal (@rev ascii)) in H0. rewrite !rev_involutive in H0.
    apply (f_equal string_of_list_ascii) in H0.
    rewrite !string_of_list_ascii_of_string in H0. exact H0.
  - intros ->. rewrite editDistance_same. reflexivity.
Qed.

Lemma levenshtein_nonneg a b : (0 <= levenshtein a b)%Z.
Proof. unfold levenshtein. lia. Qed.

End EditDistance.

(* ===================================================================== *)
(** ** More on the function selector *)
(* ===================================================================== *)

Lemma includes_same s : JS.includes s s = true.
Proof.
  apply includes_spec. exists EmptyString, EmptyString. simpl.
  induction s as [|c s IH]; simpl; congruence.
Qed.

Lemma toLowerCase_app a b :
  JS.toLowerCase (a ++ b) = JS.toLowerCase a ++ JS.toLowerCase b.
Proof. induction a as [|c a IH]; simpl; [| rewrite IH]; reflexivity. Qed.

(** A name that contains a text contains every part of that text. *)
Lemma containsIgnoringCase_part name before query after :
  containsIgnoringCase name (before ++ query ++ after) ->
  containsIgnoringCase name query.
Proof.
  intros (pre & post & H). unfold containsIgnoringCase.
  rewrite !toLowerCase_app in H.
  exists (pre ++ JS.toLowerCase before), (JS.toLowerCase after ++ post).
  rewrite H, !append_assoc. reflexivity.
Qed.

Lemma abiFilter_part before query after item :
  abiFilter (before ++ query ++ after) item = true ->
  abiFilter query item = true.
Proof.
  rewrite !abiFilter_spec. intros (Htype & n & Hname & Hn & Hsub).
  split; [exact Htype |]. exists n. repeat split; auto.
  exact (containsIgnoringCase_part _ _ _ _ Hsub).
Qed.

Lemma in_abiMatches abi query item :
  In item (abiMatches abi query) <->
  In item abi /\ abiFilter query item = true.
Proof.
  rewrite <- filter_In. split; apply Permutation_in;
    [| apply Permutation_sym]; apply abiMatches_perm.
Qed.

Lemma abiFilter_no_query item :
  abiFilter EmptyString item = isNamedFunction item.
Proof.
  unfold abiFilter, isNamedFunction.
  destruct (JS.truthy (item_name item) && (item_type item =? "function"));
    [apply includes_empty | reflexivity].
Qed.

Lemma free_of_app sep a b :
  JS.free_of sep (a ++ b) = JS.free_of sep a && JS.free_of sep b.
Proof.
  induction a as [|c a IH]; simpl; [reflexivity |].
  rewrite IH, andb_assoc. reflexivity.
Qed.

(** Every signature shows a parenthesis; the back entry does not. *)
Lemma reduceSignature_not_back item : reduceSignature item <> escItem.
Proof.
  intros H. apply (f_equal (JS.free_of "(")) in H.
  unfold reduceSignature in H.
  rewrite !free_of_app in H. simpl in H.
  rewrite andb_false_r in H. simpl in H. discriminate H.
Qed.

(** X5: when the query is the exact name of a function of the ABI, the
    first candidate bears that name: an exact match is ranked ahead of
    every longer name that merely contains the query. *)
Theorem exact_name_ranks_first
        (abi : list abiItem) (query : string) (item : abiItem) :
  In item abi ->
  item_type item = "function" ->
  item_name item = Some query ->
  query <> EmptyString ->
  exists first,
    nth_error (abiMatches abi query) 0 = Some first
    /\ item_name first = Some query
    /\ nth_error (searchAbi abi (Some query)) 0
       = Some (reduceSignature first).
Proof.
  intros Hin Htype Hname Hquery.
  assert (Hpass : abiFilter query item = true).
  { apply abiFilter_spec. split; [exact Htype |]. exists query.
    repeat split; auto. apply includes_spec, includes_same. }
  assert (Hmatch : In item (abiMatches abi query))
    by (apply in_abiMatches; auto).
  assert (Hzero : proximity query item = 0%Z).
  { unfold proximity. rewrite Hname. apply levenshtein_zero. reflexivity. }
  pose proof (sort_sorted (proximity query) (filter (abiFilter query) abi))
    as Hsorted.
  rewrite <- abiMatches_by_key in Hsorted.
  destruct (abiMatches abi query) as [|first rest] eqn:E; [contradiction |].
  exists first. split; [reflexivity |].
  assert (Hle : (proximity query first <= 0)%Z).
  { destruct Hmatch as [<- | Hrest]; [lia |].
    apply Sorted_extends in Hsorted;
      [| intros x y z; unfold ascending; lia].
    rewrite Forall_forall in Hsorted. specialize (Hsorted item Hrest).
    unfold ascending in Hsorted. lia. }
  assert (Hfirst : In first (abiMatches abi query))
    by (rewrite E; left; reflexivity).
  apply in_abiMatches in Hfirst as [_ Hfirst].
  apply abiFilter_spec in Hfirst as (_ & n & Hn & _ & _).
  assert (Hdist : proximity query first = 0%Z).
  { pose proof (levenshtein_nonneg (JS.template (item_name first)) query).
    unfold proximity in *. lia. }
  unfold proximity in Hdist. rewrite Hn in Hdist.
  apply levenshtein_zero in Hdist. simpl in Hdist. subst n.
  split; [exact Hn |].
  rewrite searchAbi_signatures, E.
  destruct (String.eqb_spec query EmptyString); [contradiction | reflexivity].
Qed.

Lemma exact_name_ranks_first_witness :
  exists first,
    nth_error (abiMatches Sample.sampleAbi "burn") 0 = Some first
    /\ item_name first = Some "burn".
Proof.
  assert (Hquery : "burn" <> EmptyString) by discriminate.
  assert (Hin : In Sample.burnFor Sample.sampleAbi) by (simpl; tauto).
  destruct (exact_name_ranks_first Sample.sampleAbi "burn" Sample.burnFor
                                   Hin eq_refl eq_refl Hquery)
    as (first & Hfirst & Hname & _).
  exists first. auto.
Defined.

(** X6: the back entry is offered exactly when nothing is typed.  With an
    empty query it comes first and is followed by the signature of every
    named function of the ABI, none left out; with any other query it is
    not among the candidates. *)
Theorem back_entry_only_without_query (abi : list abiItem) :
  (forall query,
      query = None \/ query = Some EmptyString ->
      nth_error (searchAbi abi query) 0 = Some escItem
      /\ Permutation (tl (searchAbi abi query))
                     (map reduceSignature (filter isNamedFunction abi)))
  /\ (forall query,
         query <> EmptyString -> ~ In escItem (searchAbi abi (Some query))).
Proof.
  split.
  - intros query Hquery.
    assert (E : searchAbi abi query = searchAbi abi (Some EmptyString))
      by (destruct Hquery as [-> | ->]; reflexivity).
    rewrite E, searchAbi_signatures. simpl.
    split; [reflexivity |]. apply Permutation_map.
    rewrite abiMatches_perm.
    rewrite (filter_ext _ _ abiFilter_no_query). reflexivity.
  - intros query Hquery. rewrite searchAbi_signatures.
    destruct (String.eqb_spec query EmptyString); [contradiction |].
    simpl. rewrite in_map_iff. intros (item & Hsig & _).
    exact (reduceSignature_not_back item Hsig).
Qed.

Lemma back_entry_only_without_query_witness :
  ~ In escItem (searchAbi Sample.sampleAbi (Some "burn")).
Proof.
  assert (Hquery : "burn" <> EmptyString) by discriminate.
  exact (proj2 (back_entry_only_without_query Sample.sampleAbi) "burn" Hquery).
Defined.

(** X7: typing more never brings a candidate in: every contract name and
    every function signature offered for a query is also offered for any
    part of that query. *)
Theorem longer_query_narrows
        (targets : list string) (abi : list abiItem)
        (before query after : string) :
  (forall name,
      In name (searchTargets targets (Some (before ++ query ++ after))) ->
      In name (searchTargets targets (Some query)))
  /\ (forall signature,
         In signature (searchAbi abi (Some (before ++ query ++ after))) ->
         In signature (searchAbi abi (Some query))).
Proof.
  split.
  - intros name. unfold searchTargets. rewrite !filter_In, !includes_spec.
    intros [Hin Hsub]. split; [exact Hin |].
    exact (containsIgnoringCase_part _ _ _ _ Hsub).
  - intros signature. rewrite !searchAbi_signatures.
    intros H. apply in_or_app. apply in_app_or in H as [H | H].
    + left. destruct (String.eqb_spec (before ++ query ++ after) EmptyString)
        as [E | _]; [| contradiction].
      destruct before; [| discriminate]. destruct query; [| discriminate].
      exact H.
    + right. rewrite in_map_iff in *. destruct H as (item & Hsig & Hin).
      exists item. split; [exact Hsig |].
      apply in_abiMatches in Hin as [Hin Hpass]. apply in_abiMatches.
      split; [exact Hin |]. exact (abiFilter_part _ _ _ _ Hpass).
Qed.

Lemma longer_query_narrows_witness :
  In "SynthsUSD" (searchTargets Sample.deployed (Some "synth"))
  /\ In (reduceSignature Sample.burn)
        (searchAbi Sample.sampleAbi (Some "ur")).
Proof.
  split.
  - apply (proj1 (longer_query_narrows Sample.deployed Sample.sampleAbi
                                       EmptyString "synth" "sUSD")).
    simpl. tauto.
  - apply (proj2 (longer_query_narrows Sample.deployed Sample.sampleAbi
                                       "b" "ur" "n")).
    simpl. tauto.
Defined.

(** X8: a query written in another letter case offers the same functions,
    though not always in the same order: the filter sets the case aside,
    the ranking does not. *)
Theorem letter_case_keeps_candidates :
  (forall abi query query',
      JS.toLowerCase query = JS.toLowerCase query' ->
      Permutation (abiMatches abi query) (abiMatches abi query'))
  /\ (exists abi query query',
         JS.toLowerCase query = JS.toLowerCase query'
         /\ abiMatches abi query <> abiMatches abi query').
Proof.
  split.
  - intros abi query query' Hcase.
    rewrite !abiMatches_perm. apply Permutation_refl'.
    apply filter_ext. intros item. unfold abiFilter. rewrite Hcase.
    reflexivity.
  - exists [mkAbiItem (Some "Ab") "function" (Some []) (Some []) None;
            mkAbiItem (Some "aB") "function" (Some []) (Some []) None],
           "A", "a".
    split; [reflexivity |]. vm_compute. discriminate.
Qed.

Lemma letter_case_keeps_candidates_witness :
  Permutation (abiMatches Sample.sampleAbi "BURN")
              (abiMatches Sample.sampleAbi "burn").
Proof.
  apply (proj1 letter_case_keeps_candidates Sample.sampleAbi "BURN" "burn").
  reflexivity.
Defined.

(** X9: a signature picked at the function prompt always leads to an
    entry of the ABI, one that bears the name of the function picked
    (names being free of parentheses); when no two entries of the ABI
    share a name, it is the very entry whose signature was picked. *)
Theorem picked_signature_finds_its_entry
        (abi : list abiItem) (query : option string) (position : nat)
        (signature : string) :
  (forall entry n,
      In entry abi -> item_name entry = Some n -> JS.free_of "(" n = true) ->
  nth_error (searchAbi abi query) position = Some signature ->
  signature <> escItem ->
  exists chosen used,
    In chosen abi
    /\ isNamedFunction chosen = true
    /\ signature = reduceSignature chosen
    /\ findAbiItem abi (abiItemNameOf signature) = Some used
    /\ item_name used = item_name chosen
    /\ ((forall a b,
            In a abi -> In b abi -> item_name a = item_name b -> a = b) ->
        used = chosen).
Proof.
  intros Hnames Hnth Hback.
  assert (Hin : In signature
                   (map reduceSignature
                        (abiMatches abi match query with
                                        | Some q => q
                                        | None => EmptyString
                                        end))).
  { apply nth_error_In in Hnth.
    assert (E : searchAbi abi query
                = searchAbi abi (Some match query with
                                      | Some q => q
                                      | None => EmptyString
                                      end))
      by (destruct query; reflexivity).
    rewrite E, searchAbi_signatures in Hnth.
    apply in_app_or in Hnth as [Hnth | Hnth]; [| exact Hnth].
    destruct (String.eqb _ _); [| contradiction].
    destruct Hnth as [<- | []]. contradiction. }
  apply in_map_iff in Hin as (chosen & Hsig & Hmatch).
  apply in_abiMatches in Hmatch as [Hchosen Hpass].
  assert (Hnamed : isNamedFunction chosen = true).
  { unfold abiFilter in Hpass. unfold isNamedFunction.
    destruct (JS.truthy (item_name chosen) && (item_type chosen =? "function"));
      [reflexivity | discriminate]. }
  apply abiFilter_spec in Hpass as (_ & n & Hn & _ & _).
  assert (Hname : abiItemNameOf signature = n).
  { rewrite <- Hsig. apply abiItemNameOf_reduceSignature; [exact Hn |].
    exact (Hnames chosen n Hchosen Hn). }
  destruct (findAbiItem abi n) as [used |] eqn:Hfind.
  - exists chosen, used. rewrite Hname.
    pose proof Hfind as Hused. unfold findAbiItem in Hused.
    apply find_some in Hused as [Hused Hsame].
    assert (Husedname : item_name used = Some n).
    { destruct (item_name used) as [m |]; [| discriminate].
      apply String.eqb_eq in Hsame. congruence. }
    repeat split; auto; try congruence.
    intros Hunique. apply Hunique; congruence.
  - exfalso. unfold findAbiItem in Hfind.
    pose proof (find_none _ _ Hfind chosen Hchosen) as Hnone.
    simpl in Hnone. rewrite Hn, String.eqb_refl in Hnone. discriminate.
Qed.

Lemma picked_signature_finds_its_entry_witness :
  exists chosen used,
    "burn(address from, uint256 amount)" = reduceSignature chosen
    /\ findAbiItem Sample.sampleAbi
                   (abiItemNameOf "burn(address from, uint256 amount)")
       = Some used
    /\ item_name used = item_name chosen.
Proof.
  assert (Hnames : forall entry n,
             In entry Sample.sampleAbi -> item_name entry = Some n ->
             JS.free_of "(" n = true).
  { intros entry n Hin Hn. simpl in Hin.
    repeat (destruct Hin as [<- | Hin];
            [simpl in Hn; try discriminate Hn;
             injection Hn as <-; reflexivity |]).
    contradiction. }
  assert (Hback : "burn(address from, uint256 amount)" <> escItem)
    by discriminate.
  destruct (picked_signature_finds_its_entry
              Sample.sampleAbi (Some "burn") 1
              "burn(address from, uint256 amount)" Hnames eq_refl Hback)
    as (chosen & used & _ & _ & Hsig & Hfind & Hsame & _).
  exists chosen, used. auto.
Defined.

(* ===================================================================== *)
(** ** More on the contract navigator *)
(* ===================================================================== *)

Lemma in_split_first (x : string) (l : list string) :
  In x l -> exists pre post, l = (pre ++ x :: post)%list /\ ~ In x pre.
Proof.
  induction l as [|y l IH]; [contradiction |].
  intros Hin. destruct (string_dec y x) as [-> | Hyx].
  - exists [], l. split; [reflexivity | tauto].
  - destruct Hin as [-> | Hin]; [contradiction |].
    destruct (IH Hin) as (pre & post & -> & Hpre).
    exists (y :: pre), post. split; [reflexivity |].
    intros [H | H]; auto.
Qed.

Lemma remove_absent (x : string) (l : list string) :
  ~ In x l -> remove string_dec x l = l.
Proof.
  induction l as [|y l IH]; simpl; intros H; [reflexivity |].
  destruct (string_dec x y) as [-> | _]; [tauto |].
  rewrite IH by tauto. reflexivity.
Qed.

(** X10: when the main contract is listed, the pinning loses no name and
    adds none: the presented list is a rearrangement of the names of the
    deployment, and, the names being distinct, it is the main contract
    followed by the other names in the order they had. *)
Theorem prioritizeTarget_listed_rearranges (targets : list string) :
  In mainContract targets ->
  Permutation (prioritizeTarget mainContract targets) targets
  /\ length (prioritizeTarget mainContract targets) = length targets
  /\ (NoDup targets ->
      prioritizeTarget mainContract targets
      = mainContract :: remove string_dec mainContract targets).
Proof.
  intros Hin. destruct (in_split_first _ _ Hin) as (pre & post & -> & Hpre).
  rewrite (prioritizeTarget_present _ _ _ Hpre).
  split; [apply Permutation_middle |].
  split; [simpl; rewrite !length_app; simpl; lia |].
  intros Hnodup. f_equal. rewrite remove_app. simpl.
  destruct (string_dec mainContract mainContract) as [_ | Hne];
    [| contradiction].
  apply NoDup_remove_2 in Hnodup.
  rewrite !remove_absent; [reflexivity | |];
    intros H; apply Hnodup, in_or_app; auto.
Qed.

Lemma prioritizeTarget_listed_rearranges_witness :
  prioritizeTarget mainContract Sample.deployed
  = ["Synthetix"; "FeePool"; "SynthsUSD"].
Proof.
  assert (Hin : In mainContract Sample.deployed) by (simpl; tauto).
  destruct (prioritizeTarget_listed_rearranges _ Hin) as (_ & _ & Horder).
  rewrite Horder; [reflexivity |].
  repeat constructor; simpl; intuition discriminate.
Defined.

(* ===================================================================== *)
(** ** More on the input coercion *)
(* ===================================================================== *)

Lemma join_split sep s :
  JS.join (String sep EmptyString) (JS.split sep s) = s.
Proof.
  unfold JS.join. induction s as [|c s IH]; [reflexivity |].
  simpl JS.split. destruct (Ascii.eqb_spec c sep) as [-> | Hc].
  - destruct (JS.split sep s) as [|piece pieces] eqn:E;
      [exfalso; exact (split_not_nil _ _ E) |].
    change (String.concat (String sep EmptyString)
                          (EmptyString :: piece :: pieces))
      with (String sep (String.concat (String sep EmptyString)
                                      (piece :: pieces))).
    rewrite IH. reflexivity.
  - destruct (JS.split sep s) as [|piece pieces] eqn:E;
      [exfalso; exact (split_not_nil _ _ E) |].
    rewrite <- IH. destruct pieces; reflexivity.
Qed.

Lemma split_pieces_free sep s :
  Forall (fun piece => JS.free_of sep piece = true) (JS.split sep s).
Proof.
  induction s as [|c s IH]; simpl; [repeat constructor |].
  destruct (Ascii.eqb c sep) eqn:Hc; [constructor; [reflexivity | exact IH] |].
  destruct (JS.split sep s) as [|piece pieces];
    [repeat constructor; simpl; rewrite Hc; reflexivity |].
  inversion IH as [|? ? Hpiece Hpieces]; subst.
  constructor; [simpl; rewrite Hc, Hpiece; reflexivity | exact Hpieces].
Qed.

(** X11: for an array parameter the argument is never an empty array.  It
    is built from the pieces of the raw text between the commas: the
    pieces contain no comma, joining them with commas gives the raw text
    back (nothing is trimmed, empty pieces are kept), and an empty answer
    gives the single empty piece.  Each piece is encoded when the type is
    a fixed word, and passed as it is otherwise. *)
Theorem array_input_pieces (toBytes32 : string -> string)
        (type raw : string) :
  isArray type = true ->
  exists pieces,
    processInput toBytes32 type raw =
    VArray (map (fun piece =>
                   VString (if requiresBytes32Util type
                            then toBytes32 piece else piece))
                pieces)
    /\ pieces <> []
    /\ JS.join "," pieces = raw
    /\ Forall (fun piece => JS.free_of "," piece = true) pieces
    /\ (raw = EmptyString -> pieces = [EmptyString]).
Proof.
  intros Harr. exists (JS.split "," raw).
  split; [| split; [| split; [| split]]].
  - unfold processInput. rewrite Harr.
    destruct (requiresBytes32Util type); reflexivity.
  - apply split_not_nil.
  - apply join_split.
  - apply split_pieces_free.
  - intros ->. reflexivity.
Qed.

Lemma array_input_pieces_witness :
  exists pieces,
    processInput Sample.bytes32OfText "uint256[]" "1, 2," =
    VArray (map VString pieces)
    /\ JS.join "," pieces = "1, 2,".
Proof.
  destruct (array_input_pieces Sample.bytes32OfText "uint256[]" "1, 2,"
                               eq_refl)
    as (pieces & Hvalue & _ & Hjoin & _).
  exists pieces. split; [exact Hvalue | exact Hjoin].
Defined.

(* ===================================================================== *)
(** ** More on the loop *)
(* ===================================================================== *)

(** What does not return leaves no room for what comes after it. *)
Lemma bind_open_ended {A} (m : M A) (k : A -> M A) w :
  open_ended (fst (m w)) -> bind m k w = m w.
Proof.
  unfold bind. destruct (m w) as [[a | e | |] w']; simpl;
    intros [H | [e' H]]; try discriminate; reflexivity.
Qed.

(** X12: picking the back entry closes the prompt and shows the contract
    prompt again; [pickContract] does not return, so nothing of
    [pickFunction] runs after it: no input is prompted and no call is
    made for the back entry. *)
Theorem back_entry_reenters_pickContract
        (env : collaborators) (ctx : context) (fuel : nat)
        (c : contract) (src : source) (w : world)
        (query : option string) (position : nat) (later : list answer) :
  script w = Choose query position :: later ->
  nth_error (searchAbi (abi src) query) position = Some escItem ->
  length later <= fuel ->
  pickFunction env ctx (S (S fuel)) c src w
  = pickContract env ctx (S fuel)
                 (mkWorld later (UiClose :: PromptFunction :: trace w))
  /\ open_ended (fst (pickFunction env ctx (S (S fuel)) c src w)).
Proof.
  intros Hscript Hnth Hfuel.
  assert (Hopen : open_ended
                    (fst (pickContract env ctx (S fuel)
                            (mkWorld later
                                     (UiClose :: PromptFunction :: trace w))))).
  { apply (proj1 (picks_open_ended env ctx fuel)). exact Hfuel. }
  assert (Hrun : pickFunction env ctx (S (S fuel)) c src w
                 = pickContract env ctx (S fuel)
                     (mkWorld later (UiClose :: PromptFunction :: trace w))).
  { change (pickFunction env ctx (S (S fuel)) c src)
      with (pickFunction_body env ctx (pickContract env ctx (S fuel))
              (pickFunction env ctx (S fuel) c src) c src).
    unfold pickFunction_body. unfold bind at 1, promptList.
    rewrite Hscript, Hnth. cbn [script trace].
    change (escItem =? escItem) with true. cbv iota.
    rewrite bind_open_ended.
    - unfold bind, emit. reflexivity.
    - unfold bind, emit. exact Hopen. }
  split; [exact Hrun |]. rewrite Hrun. exact Hopen.
Qed.

Lemma back_entry_reenters_pickContract_witness :
  pickFunction Sample.env Sample.ctx 3 Sample.sampleContract
               Sample.sampleSource (Sample.begin [Choose None 0])
  = (Pending, mkWorld [] [PromptContract; UiClose; PromptFunction]).
Proof.
  rewrite (proj1 (back_entry_reenters_pickContract
                    Sample.env Sample.ctx 1 Sample.sampleContract
                    Sample.sampleSource (Sample.begin [Choose None 0])
                    None 0 [] eq_refl eq_refl (le_S 0 0 (le_n 0)))).
  reflexivity.
Defined.











Lemma eachOutputEvents_numbered env result outputs : forall i,
  eachOutputEvents env outputs result i =
  map (labelled env result) (combine (seq i (length outputs)) outputs).
Proof.
  induction outputs as [|output outputs IH]; intros i; [reflexivity |].
  cbn [eachOutputEvents length seq combine map]. rewrite IH. reflexivity.
Qed.

Lemma printedEvents_quiet env outputs result e :
  In e (printedEvents env outputs result) -> isTransactional e = false.
Proof.
  assert (Heach : forall i, In e (eachOutputEvents env outputs result i) ->
                            isTransactional e = false).
  { induction outputs as [|output outputs IH]; intros i; simpl; [tauto |].
    intros [<- | H]; [reflexivity | exact (IH (S i) H)]. }
  unfold printedEvents. destruct outputs as [|output [|output' outputs]].
  - contradiction.
  - intros [<- | []]. reflexivity.
  - apply Heach.
Qed.

(** The call section of a view function whose entry declares no list of
    outputs at all. *)
Lemma callFunction_view_outputs_missing env ctx next c fn abiItem inputs w
      result :
  isView abiItem = true ->
  call env c fn inputs = Fulfilled result ->
  item_outputs abiItem = None ->
  callFunction env ctx next c fn abiItem inputs w =
  (if is_undefined result then next
   else throw (TypeError "Cannot read property 'length' of undefined"))
    (mkWorld (script w)
             (rev [Log "  > Querying..."; Query c fn inputs;
                   Log "  > Transaction sent..."; LogReceipt result c]
                ++ trace w)%list).
Proof.
  intros Hview Hcall Houtputs. unfold callFunction. rewrite Hview.
  unfold queryContract, conclude, report, printOutputs.
  unfold bind, emit, ret. rewrite Hcall. cbn [fst snd script trace].
  rewrite Hview, Houtputs. destruct (is_undefined result); reflexivity.
Qed.

(** X15: a view call is made at once: it asks for no confirmation, takes
    no answer from the user and stages nothing.  Whether the call is
    rejected, returns, or the report faults, the events of the call are
    the query and console lines only. *)
Theorem view_call_asks_nothing
        (env : collaborators) (ctx : context) (next : M unit)
        (c : contract) (fn : string) (abiItem : abiItem)
        (inputs : list value) (w : world) :
  isView abiItem = true ->
  exists w' evs,
    (callFunction env ctx next c fn abiItem inputs w = next w'
     \/ exists e,
         callFunction env ctx next c fn abiItem inputs w = (Threw e, w'))
    /\ script w' = script w
    /\ history w' = (history w ++ evs)%list
    /\ In (Query c fn inputs) evs
    /\ forall e, In e evs -> isTransactional e = false.
Proof.
  intros Hview.
  destruct (call env c fn inputs) as [result | err] eqn:Hcall.
  - destruct (item_outputs abiItem) as [outputs |] eqn:Houtputs.
    + destruct (is_undefined result) eqn:Hundef.
      * rewrite (callFunction_view_returned _ _ _ _ _ _ _ _ _ _
                   Hview Hcall Houtputs (or_introl Hundef)).
        eexists. eexists. split; [left; reflexivity |].
        split; [reflexivity |]. split; [apply history_extend |].
        unfold queryEvents. rewrite Hundef. split; [simpl; tauto |].
        intros e He. simpl in He.
        repeat destruct He as [<- | He]; try reflexivity. contradiction.
      * destruct outputs as [|output outputs].
        -- rewrite (callFunction_view_no_outputs _ _ _ _ _ _ _ _ _
                      Hview Hcall Houtputs Hundef).
           eexists. eexists. split; [right; eexists; reflexivity |].
           split; [reflexivity |]. split; [apply history_extend |].
           split; [simpl; tauto |].
           intros e He. simpl in He.
           repeat destruct He as [<- | He]; try reflexivity. contradiction.
        -- assert (Hsome : output :: outputs <> []) by discriminate.
           rewrite (callFunction_view_returned _ _ _ _ _ _ _ _ _ _
                      Hview Hcall Houtputs (or_intror Hsome)).
           eexists. eexists. split; [left; reflexivity |].
           split; [reflexivity |]. split; [apply history_extend |].
           unfold queryEvents. rewrite Hundef. split; [simpl; tauto |].
           intros e He. apply in_app_or in He as [He | He].
           ++ simpl in He.
              repeat destruct He as [<- | He]; try reflexivity. contradiction.
           ++ exact (printedEvents_quiet _ _ _ _ He).
    + rewrite (callFunction_view_outputs_missing _ _ _ _ _ _ _ _ _
                 Hview Hcall Houtputs).
      eexists. eexists. split.
      { destruct (is_undefined result);
          [left; reflexivity | right; eexists; reflexivity]. }
      split; [reflexivity |]. split; [apply history_extend |].
      split; [simpl; tauto |].
      intros e He. simpl in He.
      repeat destruct He as [<- | He]; try reflexivity. contradiction.
  - rewrite (callFunction_view_rejected _ _ _ _ _ _ _ _ _ Hview Hcall).
    eexists. eexists. split; [left; reflexivity |].
    split; [reflexivity |]. split; [apply history_extend |].
    split; [simpl; tauto |].
    intros e He. simpl in He.
    repeat destruct He as [<- | He]; try reflexivity. contradiction.
Qed.

Lemma view_call_asks_nothing_witness :
  exists w' evs,
    callFunction Sample.env Sample.ctx (ret tt) Sample.sampleContract
                 "balanceOf" Sample.balanceOf [VString "0xabc"]
                 (Sample.begin [YesNo true])
    = (Returned tt, w')
    /\ script w' = [YesNo true]
    /\ history w' = evs
    /\ forall e, In e evs -> isTransactional e = false.
Proof.
  destruct (view_call_asks_nothing
              Sample.env Sample.ctx (ret tt) Sample.sampleContract
              "balanceOf" Sample.balanceOf [VString "0xabc"]
              (Sample.begin [YesNo true]) eq_refl)
    as (w' & evs & [Hrun | [e Hrun]] & Hscript & Hhistory & _ & Hquiet).
  - exists w', evs. split; [exact Hrun |]. split; [exact Hscript |].
    split; [exact Hhistory | exact Hquiet].
  - exfalso. vm_compute in Hrun. discriminate Hrun.
Defined.

(** X16: for a view function with several outputs, one line is printed
    per output, in the order of the ABI: the [i]-th line bears the name
    and the type of the [i]-th output and shows the [i]-th element of the
    result (undefined when the result is shorter).  With a single output
    the whole result is shown under that output. *)
Theorem outputs_printed_one_by_one
        (env : collaborators) (abiItem : abiItem) (outputs : list param)
        (result : value) (w : world) :
  item_outputs abiItem = Some outputs ->
  (2 <= length outputs ->
   exists w',
     printOutputs env abiItem result w = (Returned tt, w')
     /\ script w' = script w
     /\ history w' =
        (history w ++
           map (labelled env result)
               (combine (seq 0 (length outputs)) outputs))%list)
  /\ (forall output,
         outputs = [output] ->
         exists w',
           printOutputs env abiItem result w = (Returned tt, w')
           /\ script w' = script w
           /\ history w' =
              (history w ++
                 [PrintOutput (p_name output) (p_type output)
                              (printReturnedValue env result)])%list).
Proof.
  intros Houtputs. split.
  - intros Hlen.
    assert (Hsome : outputs <> [])
      by (destruct outputs; simpl in *; [lia | discriminate]).
    rewrite (printOutputs_run _ _ _ _ _ Houtputs Hsome).
    eexists. split; [reflexivity |]. split; [reflexivity |].
    rewrite history_extend. f_equal.
    destruct outputs as [|o1 [|o2 outputs]]; simpl in Hlen; try lia.
    unfold printedEvents. apply eachOutputEvents_numbered.
  - intros output ->.
    assert (Hsome : [output] <> []) by discriminate.
    rewrite (printOutputs_run _ _ _ _ _ Houtputs Hsome).
    eexists. split; [reflexivity |]. split; [reflexivity |].
    apply history_extend.
Qed.

Lemma outputs_printed_one_by_one_witness :
  exists w',
    printOutputs Sample.env Sample.rateAndTime (VArray [VBigNumber 7])
                 (Sample.begin [])
    = (Returned tt, w')
    /\ history w' =
       [PrintOutput (Some "rate") "uint256"
                    (VString "7 (0.000000000000000007)");
        PrintOutput (Some "time") "uint256" VUndefined].
Proof.
  destruct (outputs_printed_one_by_one
              Sample.env Sample.rateAndTime
              [Sample.named "rate" "uint256"; Sample.named "time" "uint256"]
              (VArray [VBigNumber 7]) (Sample.begin []) eq_refl)
    as [Hseveral _].
  destruct (Hseveral (le_n 2)) as (w' & Hrun & _ & Hhistory).
  exists w'. split; [exact Hrun | exact Hhistory].
Defined.

(** X17: while the query matches "Synthetix", letter case set aside, the
    main contract stays the first candidate of the contract prompt; once
    the query does not match it, it is not offered at all. *)
Theorem pinned_contract_first_while_it_matches
        (targets : list string) (query : string) :
  (containsIgnoringCase mainContract query ->
   nth_error (searchTargets (prioritizeTarget mainContract targets)
                            (Some query)) 0 = Some mainContract)
  /\ (~ containsIgnoringCase mainContract query ->
      ~ In mainContract
           (searchTargets (prioritizeTarget mainContract targets)
                          (Some query))).
Proof.
  unfold containsIgnoringCase. split.
  - intros Hsub. apply includes_spec in Hsub.
    unfold searchTargets, prioritizeTarget, JS.unshift. cbn [filter].
    rewrite Hsub. reflexivity.
  - intros Hnot Hin. unfold searchTargets in Hin.
    apply filter_In in Hin as [_ Hin]. apply includes_spec in Hin.
    exact (Hnot Hin).
Qed.

Lemma pinned_contract_first_while_it_matches_witness :
  nth_error (searchTargets (prioritizeTarget mainContract Sample.deployed)
                           (Some "SYN")) 0 = Some "Synthetix".
Proof.
  apply (proj1 (pinned_contract_first_while_it_matches Sample.deployed "SYN")).
  exists EmptyString, "thetix". reflexivity.
Defined.

(** A type that bears the array marker looks like a path to lodash. *)
Lemma isDeepProp_later c name :
  Lodash.isDeepProp name = true -> Lodash.isDeepProp (String c name) = true.
Proof.
  intros Hdeep. cbn [Lodash.isDeepProp]. rewrite Hdeep. apply orb_true_r.
Qed.

Lemma isDeepProp_brackets pre post :
  Lodash.isDeepProp (pre ++ "[]" ++ post) = true.
Proof.
  induction pre as [|c pre IH]; [reflexivity |].
  apply isDeepProp_later, IH.
Qed.

Lemma isArray_not_key type :
  isArray type = true -> Lodash.isKey type = false.
Proof.
  unfold isArray, Lodash.isKey. intros Harray.
  apply includes_spec in Harray as (pre & post & ->).
  rewrite isDeepProp_brackets. reflexivity.
Qed.

(** What was typed under a name that looks like a path is not read back:
    the argument is made of [undefined]. *)
Lemma argument_of_path env input raw :
  Lodash.isKey (inputName input) = false ->
  argument env input raw = coerceAnswer env (p_type input) None.
Proof.
  intros Hkey. unfold argument, readAnswer. rewrite Hkey. reflexivity.
Qed.

(** A parameter without a name and of an array type yields no argument,
    whatever is typed. *)
Lemma argument_unnamed_array env input raw :
  JS.truthy (p_name input) = false ->
  isArray (p_type input) = true ->
  argument env input raw
  = RejectedWith (TypeError "Cannot read property 'split' of undefined").
Proof.
  intros Hname Harray. rewrite argument_of_path.
  - unfold coerceAnswer. rewrite Harray. reflexivity.
  - unfold inputName. rewrite Hname. apply isArray_not_key, Harray.
Qed.

(** When the input prompts return, every text typed has led to an
    argument. *)
Lemma promptInputs_returned env params :
  forall (w w' : world) (inputs : list value),
    promptInputs env params w = (Returned inputs, w') ->
    exists raws,
      length raws = length params
      /\ script w = (map Typed raws ++ script w')%list
      /\ Forall2 (fun typed processed =>
                    argument env (fst typed) (snd typed)
                    = Fulfilled processed)
                 (combine params raws) inputs
      /\ inputs = coerceInputs env params raws
      /\ history w' = (history w ++ inputEvents env params raws)%list.
Proof.
  induction params as [|input params IH]; intros w w' inputs Hrun.
  - cbn [promptInputs] in Hrun. unfold ret in Hrun.
    injection Hrun as <- <-.
    exists []. simpl. rewrite app_nil_r. auto.
  - destruct (script w) as [|[| raw |] later] eqn:Hscript;
      try (cbn [promptInputs] in Hrun; unfold bind at 1, promptInput in Hrun;
           rewrite Hscript in Hrun; discriminate Hrun).
    rewrite (promptInputs_step _ _ _ _ _ _ Hscript) in Hrun.
    destruct (argument env input raw) as [processed | e] eqn:Harg;
      [| discriminate Hrun].
    unfold bind at 1 in Hrun.
    destruct (promptInputs env params _) as [[others | | |] w1] eqn:Hrest;
      try discriminate Hrun.
    unfold ret in Hrun. injection Hrun as <- <-.
    destruct (IH _ _ _ Hrest) as (raws & Hraws & Hs & Hall & Hinputs & Hh).
    exists (raw :: raws). cbn [script] in Hs.
    split; [simpl; congruence |]. split; [simpl; congruence |].
    split; [constructor; [exact Harg | exact Hall] |].
    split; [cbn [coerceInputs]; rewrite Harg; congruence |].
    rewrite Hh. unfold history. cbn [trace rev inputEvents]. rewrite Harg.
    rewrite <- !app_assoc. reflexivity.
Qed.

Lemma arguments_of_all env params : forall raws inputs input,
  Forall2 (fun typed processed =>
             argument env (fst typed) (snd typed) = Fulfilled processed)
          (combine params raws) inputs ->
  length raws = length params ->
  In input params ->
  exists raw processed, argument env input raw = Fulfilled processed.
Proof.
  induction params as [|first params IH]; intros raws inputs input Hall Hlen
                                                 Hin; [contradiction |].
  destruct raws as [|raw raws]; [discriminate |].
  simpl in Hall. inversion Hall as [|? processed ? others Harg Hrest]; subst.
  destruct Hin as [<- | Hin].
  - exists raw, processed. exact Harg.
  - apply (IH raws others); [exact Hrest | | exact Hin].
    simpl in Hlen. congruence.
Qed.

(** X18: when the input prompts return, the arguments number exactly the
    parameters of the entry, and each is what the driver makes of what it
    reads back for the text typed at the prompt of its parameter, the
    texts having been taken from the user in the order of the parameters
    and no other one.  Under a name that is a plain key the text is read
    back and coerced under the type of the parameter; under a name that
    lodash takes for a path nothing is read back and the argument is made
    of [undefined].  With a parameter that has no name and an array type,
    the input prompts never return. *)
Theorem promptInputs_one_argument_per_parameter
        (env : collaborators) (params : list param) :
  (forall (w w' : world) (inputs : list value),
      promptInputs env params w = (Returned inputs, w') ->
      length inputs = length params
      /\ exists raws,
           length raws = length params
           /\ script w = (map Typed raws ++ script w')%list
           /\ Forall2 (fun typed processed =>
                         argument env (fst typed) (snd typed)
                         = Fulfilled processed)
                      (combine params raws) inputs
           /\ inputs = coerceInputs env params raws
           /\ history w' = (history w ++ inputEvents env params raws)%list)
  /\ (forall input raw,
         Lodash.isKey (inputName input) = true ->
         argument env input raw
         = Fulfilled (processInput (toBytes32 env) (p_type input) raw))
  /\ (forall input raw,
         Lodash.isKey (inputName input) = false ->
         argument env input raw = coerceAnswer env (p_type input) None)
  /\ (forall input,
         In input params ->
         JS.truthy (p_name input) = false ->
         isArray (p_type input) = true ->
         forall w w' inputs,
           promptInputs env params w <> (Returned inputs, w')).
Proof.
  split; [| split; [| split]].
  - intros w w' inputs Hrun.
    destruct (promptInputs_returned env params w w' inputs Hrun)
      as (raws & Hraws & Hscript & Hall & Hinputs & Hhistory).
    split; [| exists raws; auto].
    apply Forall2_length in Hall. rewrite <- Hall, length_combine, Hraws.
    apply Nat.min_id.
  - intros input raw. apply argument_of_key.
  - intros input raw. apply argument_of_path.
  - intros input Hin Hname Harray w w' inputs Hrun.
    destruct (promptInputs_returned env params w w' inputs Hrun)
      as (raws & Hraws & _ & Hall & _).
    destruct (arguments_of_all env params raws inputs input Hall Hraws Hin)
      as (raw & processed & Harg).
    rewrite (argument_unnamed_array env input raw Hname Harray) in Harg.
    discriminate Harg.
Qed.

Lemma promptInputs_one_argument_per_parameter_witness :
  (exists raws,
      length raws = 2
      /\ [Typed "0xabc"; Typed "5"; YesNo true]
         = (map Typed raws ++ [YesNo true])%list)
  /\ (forall w w' inputs,
         promptInputs Sample.env [Sample.unnamed "uint256[]"] w
         <> (Returned inputs, w')).
Proof.
  destruct (promptInputs_one_argument_per_parameter
              Sample.env
              [Sample.named "to" "address"; Sample.named "value" "uint256"])
    as (Hreturned & _).
  destruct (Hreturned
              (Sample.begin [Typed "0xabc"; Typed "5"; YesNo true])
              (mkWorld [YesNo true]
                       [LogProcessedInputs 1 (VString "5"); LogRawInputs "5";
                        PromptInput "value" "value";
                        LogProcessedInputs 1 (VString "0xabc");
                        LogRawInputs "0xabc"; PromptInput "to" "to"])
              [VString "0xabc"; VString "5"] eq_refl)
    as (_ & raws & Hlen & Hscript & _).
  split; [exists raws; split; [exact Hlen | exact Hscript] |].
  destruct (promptInputs_one_argument_per_parameter
              Sample.env [Sample.unnamed "uint256[]"])
    as (_ & _ & _ & Hnever).
  apply (Hnever (Sample.unnamed "uint256[]"));
    [left; reflexivity | reflexivity | reflexivity].
Defined.

(** An unnamed parameter of type [uint256[]]: the text typed is filed
    under the path [uint256], [answer[name]] is [undefined] and the split
    throws. *)
Example unnamed_array_throws :
  promptInputs Sample.env [Sample.unnamed "uint256[]"]
               (Sample.begin [Typed "1,2"; YesNo true])
  = (Threw (TypeError "Cannot read property 'split' of undefined"),
     mkWorld [YesNo true]
             [LogRawUndefined; PromptInput "uint256[]" "uint256[]"]).
Proof. reflexivity. Qed.

(** An unnamed parameter of type [uint256[3]]: no array marker, so
    [undefined] itself becomes the argument. *)
Example unnamed_fixed_array_undefined :
  promptInputs Sample.env [Sample.unnamed "uint256[3]"]
               (Sample.begin [Typed "1,2,3"; YesNo true])
  = (Returned [VUndefined],
     mkWorld [YesNo true]
             [LogProcessedInputs 1 VUndefined; LogRawUndefined;
              PromptInput "uint256[3]" "uint256[3]"]).
Proof. reflexivity. Qed.

(** X19: an entry whose state mutability is not exactly "view" is never
    called without a confirmation, a "pure" function and an entry without
    a state mutability included.  The call section opens with the
    confirmation prompt.  Unless the user says yes, the contract method is
    not called: [pickFunction] is entered again, or the run stays
    suspended, with nothing after the prompt.  After a yes the method is
    called once, with the overrides after the inputs, right after the
    staging line; when that call throws, the error leaves the call
    section and nothing else happens. *)
Theorem non_view_call_waits_for_confirmation
        (env : collaborators) (ctx : context) (next : M unit)
        (c : contract) (fn : string) (abiItem : abiItem)
        (inputs : list value) (w : world) :
  item_stateMutability abiItem <> Some "view" ->
  ((forall later, script w <> YesNo true :: later) ->
   exists w',
     (callFunction env ctx next c fn abiItem inputs w = next w'
      \/ callFunction env ctx next c fn abiItem inputs w = (Pending, w'))
     /\ history w' = (history w ++ [PromptConfirm])%list)
  /\ (forall later,
         script w = YesNo true :: later ->
         exists w' evs,
           history w' =
           (history w ++
              PromptConfirm :: Log "  > Staging transaction..."
              :: Send (mkTxPromise c fn inputs (txOverrides ctx))
              :: evs)%list
           /\ (forall e, In e evs -> forall p, e <> Send p)
           /\ (transact env (mkTxPromise c fn inputs (txOverrides ctx))
               = None ->
               callFunction env ctx next c fn abiItem inputs w = next w')
           /\ (forall e,
                  transact env (mkTxPromise c fn inputs (txOverrides ctx))
                  = Some e ->
                  callFunction env ctx next c fn abiItem inputs w
                  = (Threw e, w')
                  /\ evs = [])).
Proof.
  intros Hmutability.
  assert (Hview : isView abiItem = false).
  { unfold isView. destruct (item_stateMutability abiItem) as [m |];
      [| reflexivity].
    destruct (String.eqb_spec m "view") as [-> | _];
      [contradiction | reflexivity]. }
  split.
  - intros Hno.
    destruct (script w) as [|[| | [|]] later] eqn:Hscript.
    4: exfalso; exact (Hno later eq_refl).
    1-3: rewrite callFunction_unanswered;
      [| exact Hview | intros yes rest; rewrite Hscript; discriminate];
      exists (mkWorld (script w) (PromptConfirm :: trace w));
      (split; [right; reflexivity | reflexivity]).
    rewrite callFunction_declined with (later := later);
      [| exact Hview | exact Hscript].
    exists (mkWorld later (PromptConfirm :: trace w)).
    split; [left; reflexivity | reflexivity].
  - intros later Hscript.
    destruct (transact env (mkTxPromise c fn inputs (txOverrides ctx)))
      as [e |] eqn:Hmethod.
    + rewrite callFunction_confirmed_throws with (later := later) (e := e);
        [| exact Hview | exact Hscript | exact Hmethod].
      eexists. exists []. split; [apply history_extend |].
      split; [intros ev [] |]. split; [discriminate |].
      intros e' He'. injection He' as <-. split; reflexivity.
    + rewrite callFunction_confirmed with (later := later);
        [| exact Hview | exact Hscript | exact Hmethod].
      eexists. eexists.
      split; [rewrite history_extend; unfold transactionEvents;
              reflexivity |].
      split; [| split; [reflexivity | discriminate]].
      intros ev Hev p ->.
      destruct (stage env _) as [tx | stageError]; simpl in Hev.
      * destruct (submit env tx) as [submitError |]; simpl in Hev.
        -- repeat destruct Hev as [Hev | Hev]; try discriminate Hev.
           contradiction.
        -- destruct (receipt env tx); simpl in Hev;
             repeat destruct Hev as [Hev | Hev]; try discriminate Hev;
               contradiction.
      * repeat destruct Hev as [Hev | Hev]; try discriminate Hev.
        contradiction.
Qed.

Lemma non_view_call_waits_for_confirmation_witness :
  exists w',
    callFunction Sample.env Sample.ctx (ret tt) Sample.sampleContract
                 "toBytes"
                 (mkAbiItem (Some "toBytes") "function" (Some [])
                            (Some [Sample.unnamed "bytes32"]) (Some "pure"))
                 [] (Sample.begin [])
    = (Pending, w')
    /\ history w' = [PromptConfirm].
Proof.
  assert (Hpure : Some "pure" <> Some "view") by discriminate.
  assert (Hno : forall later,
             script (Sample.begin []) <> YesNo true :: later)
    by discriminate.
  destruct (proj1 (non_view_call_waits_for_confirmation
                     Sample.env Sample.ctx (ret tt) Sample.sampleContract
                     "toBytes"
                     (mkAbiItem (Some "toBytes") "function" (Some [])
                                (Some [Sample.unnamed "bytes32"])
                                (Some "pure"))
                     [] (Sample.begin []) Hpure) Hno)
    as (w' & [Hrun | Hrun] & Hhistory).
  - exfalso. vm_compute in Hrun. discriminate Hrun.
  - exists w'. split; [exact Hrun | exact Hhistory].
Defined.
